(** * AI-chatbot backend (backend/app.py): orchestration layer

    A shallow embedding of the Flask application in
    [ai-chatbot-project/backend/app.py]: the two module-level stores
    ([conversation_store], [audio_file_store]), the scratch directory
    [Config.TEMP_DIR], the readiness event [models_loaded], the two
    decorators ([ensure_models_loaded], [api_response]), the nine route
    handlers and one cycle of the reaper loop [cleanup_old_files].

    The three inference pipelines, [uuid.uuid4], [tempfile], [time.time]
    and the operating system's answer to [os.unlink] are not code of the
    application: they enter every handler through an [Env] record of
    oracles, and every theorem quantifies over it.  Clock readings and
    waveform samples are Python floats; they are carried as rationals
    (no rounding is modelled, the handlers only store and compare them). *)

From Stdlib Require Import QArith.
From Stdlib.Strings Require Import Byte.
From stdpp Require Import gmap strings list fin_maps.

Set Default Proof Using "Type".

(** ** Data model *)

(** A turn is the dict [{'role': ..., 'content': ...}]; the handlers only
    ever write the two role strings ['user'] and ['assistant']. *)
Inductive Role := user | assistant.

Record Turn := { role : Role; content : string }.

#[global] Instance Role_eq_dec : EqDecision Role.
Proof. solve_decision. Defined.

#[global] Instance Turn_eq_dec : EqDecision Turn.
Proof. solve_decision. Defined.

(** The [transformers.Conversation] object is library code.  It is
    represented by how the handler builds it: the constructor argument
    and the method calls made on it afterwards, in order. *)
Inductive ConvoCall :=
| add_user_input (text : string)
| mark_processed
| append_response (text : string).

Record Conversation := { new_user_input : string; calls : list ConvoCall }.

(** What a call into foreign code does: it returns, or it raises an
    exception whose [str(e)] is [msg]. *)
Inductive Outcome (A : Type) :=
| Returned (a : A)
| Raised (msg : string).
Arguments Returned {A} a.
Arguments Raised {A} msg.

(** Result dict of the text-to-speech pipeline:
    [result["sampling_rate"]] and the rows of [result["audio"]]. *)
Record Speech := { sampling_rate : Z; audio : list (list Q) }.

(** Contents of a file of the scratch directory: an upload saved with
    [audio_file.save], or what [wav.write(path, rate, data)] stored. *)
Inductive FileData :=
| upload (data : list byte)
| wav_file (rate : Z) (samples : list Q).

(** Value type of [audio_file_store]: the dict with keys ["path"],
    ["timestamp"] and ["type"]. *)
Record AudioInfo := { path : string; timestamp : Q; type : string }.

Inductive EngineCall :=
| call_chatbot (convo : Conversation)
| call_asr (file_name : string)
| call_narrator (text : string).

Inductive LogRecord :=
| log_debug (msg : string)
| log_info (msg : string)
| log_error (msg : string).

(** ** Configuration ([class Config]) *)

Module Config.
(** [Path(tempfile.gettempdir()) / "chatbot_audio"] on a POSIX host. *)
Definition TEMP_DIR : string := "/tmp/chatbot_audio".
Definition AUDIO_RETENTION_SECONDS : Q := 3600.
End Config.

(** [str(Config.TEMP_DIR / filename)] *)
Definition temp_path (filename : string) : string :=
  Config.TEMP_DIR +:+ "/" +:+ filename.

(** ** Insertion-ordered dictionaries

    [audio_file_store] is iterated by the reaper, so the order of a
    Python dict is kept: an association list in insertion order, where
    assigning to an existing key keeps its position. *)
Module PyDict.
Section Dict.
Context {V : Type}.

Fixpoint get (k : string) (d : list (string * V)) : option V :=
  match d with
  | [] => None
  | (k', v) :: d' => if decide (k' = k) then Some v else get k d'
  end.

(** [d[k] = v] *)
Fixpoint set (k : string) (v : V) (d : list (string * V)) : list (string * V) :=
  match d with
  | [] => [(k, v)]
  | (k', v') :: d' =>
      if decide (k' = k) then (k, v) :: d' else (k', v') :: set k v d'
  end.

(** [del d[k]] once [k in d] is known *)
Fixpoint del (k : string) (d : list (string * V)) : list (string * V) :=
  match d with
  | [] => []
  | (k', v') :: d' =>
      if decide (k' = k) then d' else (k', v') :: del k d'
  end.
End Dict.
End PyDict.

(** ** Process state *)

Record State := {
  models_loaded : bool;                          (* models_loaded.is_set() *)
  conversation_store : gmap string (list Turn);
  audio_file_store : list (string * AudioInfo);
  files : gmap string FileData;                  (* the file system, by path *)
  engine_calls : list EngineCall;                (* ghost: pipelines invoked so far *)
  log : list LogRecord                           (* records handed to [logger] *)
}.

(** Module initialisation: both stores empty, the event not set. *)
Definition initial_state : State :=
  {| models_loaded := false; conversation_store := ∅; audio_file_store := [];
     files := ∅; engine_calls := []; log := [] |}.

Definition with_models_loaded (b : bool) (s : State) : State :=
  {| models_loaded := b; conversation_store := conversation_store s;
     audio_file_store := audio_file_store s; files := files s;
     engine_calls := engine_calls s; log := log s |}.

Definition with_conversation_store (m : gmap string (list Turn)) (s : State) : State :=
  {| models_loaded := models_loaded s; conversation_store := m;
     audio_file_store := audio_file_store s; files := files s;
     engine_calls := engine_calls s; log := log s |}.

Definition with_audio_file_store (d : list (string * AudioInfo)) (s : State) : State :=
  {| models_loaded := models_loaded s; conversation_store := conversation_store s;
     audio_file_store := d; files := files s;
     engine_calls := engine_calls s; log := log s |}.

Definition with_files (f : gmap string FileData) (s : State) : State :=
  {| models_loaded := models_loaded s; conversation_store := conversation_store s;
     audio_file_store := audio_file_store s; files := f;
     engine_calls := engine_calls s; log := log s |}.

Definition with_engine_calls (c : list EngineCall) (s : State) : State :=
  {| models_loaded := models_loaded s; conversation_store := conversation_store s;
     audio_file_store := audio_file_store s; files := files s;
     engine_calls := c; log := log s |}.

Definition with_log (l : list LogRecord) (s : State) : State :=
  {| models_loaded := models_loaded s; conversation_store := conversation_store s;
     audio_file_store := audio_file_store s; files := files s;
     engine_calls := engine_calls s; log := l |}.

(** ** The environment of one request (or one reaper cycle) *)

Record Env := {
  uuid_conversation : string;     (* str(uuid.uuid4()) for a new conversation *)
  uuid_audio : string;            (* uuid.uuid4() in the audio file name *)
  temp_name : string;             (* temp_file.name of NamedTemporaryFile *)
  clock : Q;                      (* time.time() *)
  chatbot : Conversation → Outcome (list string);
                                  (* generated_responses of the returned convo *)
  asr : list byte → Outcome string;       (* result["text"] *)
  narrator : string → Outcome Speech;
  unlink_error : string → option string   (* OSError of os.unlink(path), if any *)
}.

(** ** Statements that read and write the state and may raise *)

Definition M (A : Type) : Type := State → Outcome A * State.

#[global] Instance M_ret : MRet M := λ A a s, (Returned a, s).

#[global] Instance M_bind : MBind M := λ A B f m s,
  match m s with
  | (Returned a, s') => f a s'
  | (Raised e, s') => (Raised e, s')
  end.

Definition raise {A : Type} (msg : string) : M A := λ s, (Raised msg, s).
Definition read {A : Type} (f : State → A) : M A := λ s, (Returned (f s), s).
Definition update (f : State → State) : M unit := λ s, (Returned (), f s).

(** [try: body  except Exception as e: handler(str(e))] *)
Definition try_except {A : Type} (body : M A) (handler : string → M A) : M A := λ s,
  match body s with
  | (Returned a, s') => (Returned a, s')
  | (Raised e, s') => handler e s'
  end.

Definition logger (r : LogRecord) : M unit :=
  update (λ s, with_log (log s ++ [r]) s).

(** ** Operating-system and library calls *)

(** [os.path.exists(p)] *)
Definition os_path_exists (p : string) : M bool :=
  read (λ s, bool_decide (is_Some (files s !! p))).

(** [os.unlink(p)]: raises when the file is not there, or when the
    operating system refuses the removal. *)
Definition os_unlink (env : Env) (p : string) : M unit := λ s,
  match files s !! p with
  | None => (Raised ("[Errno 2] No such file or directory: " +:+ p), s)
  | Some _ =>
      match unlink_error env p with
      | Some e => (Raised e, s)
      | None => (Returned (), with_files (delete p (files s)) s)
      end
  end.

(** Writing a whole file: [audio_file.save(name)], [wav.write(path, ..)]. *)
Definition write_file (p : string) (d : FileData) : M unit :=
  update (λ s, with_files (<[p := d]> (files s)) s).

(** [models[..](..)]: the call is recorded, then the pipeline answers. *)
Definition invoke {A : Type} (c : EngineCall) (answer : Outcome A) : M A := λ s,
  (answer, with_engine_calls (engine_calls s ++ [c]) s).

(** ** Responses *)

Inductive Body :=
| error_json (error : string)
| status_json (status : string) (loaded : bool)
| chat_json (response conversation_id : string)
| text_json (text : string)
| audio_url_json (audio_url : string)
| conversation_audio_json (user_message text_response conversation_id audio_url : string)
| send_file (data : FileData) (mimetype download_name : string)
| feedback_json (grammar_score vocabulary_score fluency_score : Q)
                (suggestions : list string) (corrected_text : string)
| history_json (conversation_id : string) (messages : list Turn)
| deleted_json (success : bool) (message : string).

Record Response := { status_code : nat; body : Body }.

(** [jsonify(b)] and [jsonify(b), code] *)
Definition ok (b : Body) : Response := {| status_code := 200; body := b |}.
Definition failed (code : nat) (msg : string) : Response :=
  {| status_code := code; body := error_json msg |}.

(** A decorated view function: it always produces a response. *)
Definition Handler : Type := State → Response * State.

(** ** The decorators *)

Definition ensure_models_loaded (f : Handler) : Handler := λ s,
  if models_loaded s
  then f s
  else (failed 503 "Models are still loading. Please try again shortly.", s).

Definition api_response (func_name : string) (func : M Response) : Handler := λ s,
  match func s with
  | (Returned r, s') => (r, s')
  | (Raised e, s') =>
      (failed 500 e,
       with_log (log s' ++ [log_error ("Error in " +:+ func_name +:+ ": " +:+ e)]) s')
  end.

(** ** Module-level threads *)

(** [load_models]: the event is set only after the three pipelines were
    built; [failure] is the exception of a pipeline constructor, if any. *)
Definition load_models (failure : option string) (s : State) : State :=
  let s1 := with_log (log s ++ [log_info "Loading AI models..."]) s in
  match failure with
  | None =>
      with_models_loaded true
        (with_log (log s1 ++ [log_info "All models loaded successfully!"]) s1)
  | Some e => with_log (log s1 ++ [log_error ("Error loading models: " +:+ e)]) s1
  end.

(** [current_time - info["timestamp"] > Config.AUDIO_RETENTION_SECONDS] *)
Definition expired (current_time : Q) (info : AudioInfo) : bool :=
  if Qlt_le_dec Config.AUDIO_RETENTION_SECONDS (current_time - timestamp info)
  then true else false.

(** [del audio_file_store[filename]] *)
Definition del_audio (filename : string) : M unit := λ s,
  match PyDict.get filename (audio_file_store s) with
  | None => (Raised filename, s)     (* KeyError *)
  | Some _ =>
      (Returned (), with_audio_file_store (PyDict.del filename (audio_file_store s)) s)
  end.

(** Body of the [for] loop of [cleanup_old_files] for one item of the
    snapshot [list(audio_file_store.items())]. *)
Definition cleanup_entry (env : Env) (current_time : Q)
    (item : string * AudioInfo) : M unit :=
  let filename := item.1 in
  let info := item.2 in
  if expired current_time info then
    let file_path := path info in
    try_except
      (there ← os_path_exists file_path;
       (if there : bool then os_unlink env file_path else mret ());;
       del_audio filename;;
       logger (log_debug ("Cleaned up old audio file: " +:+ filename)))
      (λ e, logger (log_error ("Error cleaning up file " +:+ filename +:+ ": " +:+ e)))
  else mret ().

Fixpoint for_each {A : Type} (f : A → M unit) (l : list A) : M unit :=
  match l with
  | [] => mret ()
  | x :: l' => f x;; for_each f l'
  end.

(** One pass of the [while True] loop of [cleanup_old_files] (what runs
    between two [time.sleep]). *)
Definition cleanup_cycle (env : Env) : M unit :=
  try_except
    (let current_time := clock env in
     snapshot ← read audio_file_store;
     for_each (cleanup_entry env current_time) snapshot)
    (λ e, logger (log_error ("Error in cleanup thread: " +:+ e))).

(** The reaper thread over its first cycles, one environment per cycle. *)
Fixpoint cleanup_old_files (cycles : list Env) (s : State) : State :=
  match cycles with
  | [] => s
  | env :: rest => cleanup_old_files rest (cleanup_cycle env s).2
  end.

(** ** The dialog, transcription and synthesis blocks

    [chat] (lines 157-185) and [conversation_with_audio] (lines 290-316)
    contain the same statements, as do [speech_to_text] (206-215) and
    [conversation_with_audio] (278-288), and [text_to_speech] (239-254)
    and [conversation_with_audio] (318-333).  Each block is embedded
    once and used by both handlers. *)

Definition FALLBACK : string := "I'm not sure how to respond to that.".

(** The [for prev_msg in history] loop that replays the history into the
    conversation object. *)
Definition replay (history : list Turn) : list ConvoCall :=
  flat_map (λ prev_msg,
    match role prev_msg with
    | user => [add_user_input (content prev_msg)]
    | assistant => [mark_processed; append_response (content prev_msg)]
    end) history.

(** [convo.generated_responses[-1] if convo.generated_responses else "I'm not sure ..."] *)
Definition newest_response (generated_responses : list string) : string :=
  match generated_responses with
  | [] => FALLBACK
  | _ :: _ => List.last generated_responses FALLBACK
  end.

Definition set_conversation (conversation_id : string) (h : list Turn) : M unit :=
  update (λ s, with_conversation_store (<[conversation_id := h]> (conversation_store s)) s).

(** "Create new conversation if needed" *)
Definition resolve_conversation (env : Env) (conversation_id : string) : M string :=
  if decide (conversation_id = "") then
    let conversation_id := uuid_conversation env in
    set_conversation conversation_id [];;
    mret conversation_id
  else
    known ← read (λ s, bool_decide (is_Some (conversation_store s !! conversation_id)));
    (if known : bool then mret () else set_conversation conversation_id []);;
    mret conversation_id.

(** [conversation_store[conversation_id]] *)
Definition get_history (conversation_id : string) : M (list Turn) := λ s,
  match conversation_store s !! conversation_id with
  | Some h => (Returned h, s)
  | None => (Raised conversation_id, s)     (* KeyError *)
  end.

(** The dialog block; returns [(response, conversation_id)].  [history]
    is the list object held by the store, so each [append] is a write to
    the store entry. *)
Definition dialog_turn (env : Env) (user_message conversation_id : string)
    : M (string * string) :=
  conversation_id ← resolve_conversation env conversation_id;
  history ← get_history conversation_id;
  let convo := {| new_user_input := user_message; calls := replay history |} in
  generated_responses ← invoke (call_chatbot convo) (chatbot env convo);
  let response := newest_response generated_responses in
  let history := history ++ [{| role := user; content := user_message |}] in
  set_conversation conversation_id history;;
  let history := history ++ [{| role := assistant; content := response |}] in
  set_conversation conversation_id history;;
  set_conversation conversation_id history;;
  mret (response, conversation_id).

(** The transcription block; returns [result["text"]]. *)
Definition transcribe (env : Env) (data : list byte) : M string :=
  let name := temp_name env in
  write_file name (upload data);;
  text ← invoke (call_asr name) (asr env data);
  os_unlink env name;;
  mret text.

(** [result["audio"][0]] *)
Definition first_row (result : Speech) : M (list Q) :=
  match audio result with
  | row :: _ => mret row
  | [] => raise "index 0 is out of bounds for axis 0 with size 0"
  end.

(** The synthesis block; returns [filename]. *)
Definition synthesize (env : Env) (text : string) : M string :=
  result ← invoke (call_narrator text) (narrator env text);
  let filename := uuid_audio env +:+ ".wav" in
  let file_path := temp_path filename in
  samples ← first_row result;
  write_file file_path (wav_file (sampling_rate result) samples);;
  update (λ s, with_audio_file_store
     (PyDict.set filename
        {| path := file_path; timestamp := clock env; type := "audio/wav" |}
        (audio_file_store s)) s);;
  mret filename.

(** ** The route handlers *)

(** [GET /api/status] *)
Definition status : Handler := λ s,
  (ok (status_json "operational" (models_loaded s)), s).

(** [POST /api/chat] with [data.get('message', '')] and
    [data.get('conversation_id', '')] *)
Definition chat_view (env : Env) (user_message conversation_id : string) : M Response :=
  if decide (user_message = "") then mret (failed 400 "No message provided")
  else
    r ← dialog_turn env user_message conversation_id;
    mret (ok (chat_json r.1 r.2)).

Definition chat (env : Env) (user_message conversation_id : string) : Handler :=
  ensure_models_loaded (api_response "chat" (chat_view env user_message conversation_id)).

(** [POST /api/speech-to-text]; [audio_file] is [request.files['audio']],
    [None] when the part is missing. *)
Definition speech_to_text_view (env : Env) (audio_file : option (list byte)) : M Response :=
  match audio_file with
  | None => mret (failed 400 "No audio file provided")
  | Some data =>
      text ← transcribe env data;
      mret (ok (text_json text))
  end.

Definition speech_to_text (env : Env) (audio_file : option (list byte)) : Handler :=
  ensure_models_loaded (api_response "speech_to_text" (speech_to_text_view env audio_file)).

(** [POST /api/text-to-speech] *)
Definition text_to_speech_view (env : Env) (text : string) : M Response :=
  if decide (text = "") then mret (failed 400 "No text provided")
  else
    filename ← synthesize env text;
    mret (ok (audio_url_json ("/api/audio/" +:+ filename))).

Definition text_to_speech (env : Env) (text : string) : Handler :=
  ensure_models_loaded (api_response "text_to_speech" (text_to_speech_view env text)).

(** [POST /api/conversation-with-audio] *)
Definition conversation_with_audio_view (env : Env)
    (audio_file : option (list byte)) (conversation_id : string) : M Response :=
  match audio_file with
  | None => mret (failed 400 "No audio file provided")
  | Some data =>
      user_message ← transcribe env data;
      r ← dialog_turn env user_message conversation_id;
      filename ← synthesize env r.1;
      mret (ok (conversation_audio_json user_message r.1 r.2 ("/api/audio/" +:+ filename)))
  end.

Definition conversation_with_audio (env : Env)
    (audio_file : option (list byte)) (conversation_id : string) : Handler :=
  ensure_models_loaded
    (api_response "conversation_with_audio"
       (conversation_with_audio_view env audio_file conversation_id)).

(** [GET /api/audio/<filename>] *)
Definition get_audio_view (filename : string) : M Response := λ s,
  match PyDict.get filename (audio_file_store s) with
  | None => (Returned (failed 404 "Audio file not found"), s)
  | Some file_info =>
      let file_path := path file_info in
      match files s !! file_path with
      | None => (Returned (failed 404 "Audio file not found on server"), s)
      | Some data => (Returned (ok (send_file data (type file_info) filename)), s)
      end
  end.

Definition get_audio (filename : string) : Handler :=
  api_response "get_audio" (get_audio_view filename).

(** [POST /api/language-feedback] (the placeholder scorer) *)
Definition language_feedback_view (text : string) : M Response :=
  if decide (text = "") then mret (failed 400 "No text provided")
  else
    mret (ok (feedback_json (17 # 2) (39 # 5) (41 # 5)
      ["Consider using more varied sentence structures";
       "Your use of prepositions could be improved in some places";
       "You have good vocabulary, but could use more advanced connectors"]
      text)).

Definition language_feedback (text : string) : Handler :=
  ensure_models_loaded (api_response "language_feedback" (language_feedback_view text)).

(** [GET /api/conversations/<conversation_id>] *)
Definition get_conversation_history_view (conversation_id : string) : M Response := λ s,
  match conversation_store s !! conversation_id with
  | None => (Returned (failed 404 "Conversation not found"), s)
  | Some messages => (Returned (ok (history_json conversation_id messages)), s)
  end.

Definition get_conversation_history (conversation_id : string) : Handler :=
  api_response "get_conversation_history" (get_conversation_history_view conversation_id).

(** [DELETE /api/conversations/<conversation_id>] *)
Definition delete_conversation_view (conversation_id : string) : M Response :=
  known ← read (λ s, bool_decide (is_Some (conversation_store s !! conversation_id)));
  (if known : bool
   then update (λ s, with_conversation_store (delete conversation_id (conversation_store s)) s)
   else mret ());;
  mret (ok (deleted_json true "Conversation deleted")).

Definition delete_conversation (conversation_id : string) : Handler :=
  api_response "delete_conversation" (delete_conversation_view conversation_id).

(** ** Requests and runs *)

Inductive Request :=
| GET_status
| POST_chat (message conversation_id : string)
| POST_speech_to_text (audio_file : option (list byte))
| POST_text_to_speech (text : string)
| POST_conversation_with_audio (audio_file : option (list byte)) (conversation_id : string)
| GET_audio (filename : string)
| POST_language_feedback (text : string)
| GET_conversation (conversation_id : string)
| DELETE_conversation (conversation_id : string).

Definition dispatch (env : Env) (req : Request) : Handler :=
  match req with
  | GET_status => status
  | POST_chat m c => chat env m c
  | POST_speech_to_text a => speech_to_text env a
  | POST_text_to_speech t => text_to_speech env t
  | POST_conversation_with_audio a c => conversation_with_audio env a c
  | GET_audio f => get_audio f
  | POST_language_feedback t => language_feedback t
  | GET_conversation c => get_conversation_history c
  | DELETE_conversation c => delete_conversation c
  end.

(** What can happen to the process, one thing at a time: a request is
    served, the loader thread finishes, the reaper runs a cycle, or a
    file of the scratch directory is removed from outside. *)
Inductive Event :=
| served (env : Env) (req : Request)
| loaded (failure : option string)
| reaped (env : Env)
| removed_outside (file_path : string).

Definition step (ev : Event) (s : State) : State :=
  match ev with
  | served env req => (dispatch env req s).2
  | loaded failure => load_models failure s
  | reaped env => (cleanup_cycle env s).2
  | removed_outside p => with_files (delete p (files s)) s
  end.

Definition run (evs : list Event) (s : State) : State :=
  fold_left (λ s ev, step ev s) evs s.

(** ** Vocabulary of the properties *)

Definition user_turn (text : string) : Turn := {| role := user; content := text |}.
Definition assistant_turn (text : string) : Turn := {| role := assistant; content := text |}.

(** The identifier under which [resolve_conversation] leaves a session,
    the store it leaves, and the history found there. *)
Definition resolved_id (env : Env) (conversation_id : string) : string :=
  if decide (conversation_id = "") then uuid_conversation env else conversation_id.

Definition resolved_store (env : Env) (conversation_id : string)
    (m : gmap string (list Turn)) : gmap string (list Turn) :=
  if decide (conversation_id = "") then <[uuid_conversation env := []]> m
  else match m !! conversation_id with
       | Some _ => m
       | None => <[conversation_id := []]> m
       end.

Definition resolved_history (env : Env) (conversation_id : string)
    (m : gmap string (list Turn)) : list Turn :=
  default [] (resolved_store env conversation_id m !! resolved_id env conversation_id).

(** A history made of (user, assistant) pairs. *)
Fixpoint alternating (h : list Turn) : bool :=
  match h with
  | [] => true
  | u :: a :: rest =>
      bool_decide (role u = user) && bool_decide (role a = assistant) && alternating rest
  | [_] => false
  end.

(** The same, by length and position. *)
Definition well_paired (h : list Turn) : Prop :=
  Nat.Even (length h) ∧
  ∀ i t, h !! i = Some t → role t = if Nat.even i then user else assistant.

Definition paired_store (s : State) : Prop :=
  ∀ conversation_id h, conversation_store s !! conversation_id = Some h → well_paired h.

(** The writes the handlers make to [conversation_store]. *)
Inductive store_mutation (m : gmap string (list Turn)) : gmap string (list Turn) → Prop :=
| session_created id :
    store_mutation m (<[id := []]> m)
| pair_appended id h text reply :
    m !! id = Some h →
    store_mutation m (<[id := h ++ [user_turn text; assistant_turn reply]]> m)
| session_deleted id :
    store_mutation m (delete id m).

(** The handlers that carry [@ensure_models_loaded]. *)
Definition gated (req : Request) : bool :=
  match req with
  | POST_chat _ _ | POST_speech_to_text _ | POST_text_to_speech _
  | POST_conversation_with_audio _ _ | POST_language_feedback _ => true
  | GET_status | GET_audio _ | GET_conversation _ | DELETE_conversation _ => false
  end.

Definition NOT_READY : Response :=
  failed 503 "Models are still loading. Please try again shortly.".

(** A frame condition: the statement leaves a component of the state alone. *)
Definition keeps {A B : Type} (proj : State → B) (m : M A) : Prop :=
  ∀ s, proj (m s).2 = proj s.

(** A statement seen as a writer of the session store. *)
Definition mutates {A : Type} (m : M A) : Prop :=
  ∀ s, rtc store_mutation (conversation_store s) (conversation_store (m s).2).

(** Shape of [audio_file_store]: a file name occurs once, and its entry
    points at the file of that name in [Config.TEMP_DIR]. *)
Definition audio_store_wf (d : list (string * AudioInfo)) : Prop :=
  NoDup d.*1 ∧ ∀ filename info, (filename, info) ∈ d → path info = temp_path filename.

(** The reaper finds the file of an entry and [os.unlink] refuses it. *)
Definition unlink_refused (env : Env) (s : State) (info : AudioInfo) : bool :=
  bool_decide (is_Some (files s !! path info)) &&
  bool_decide (is_Some (unlink_error env (path info))).

(** The entry is one that a reaper cycle in [env], started in [s], removes. *)
Definition removes (env : Env) (s : State) (info : AudioInfo) : bool :=
  expired (clock env) info && negb (unlink_refused env s info).



(** The snapshot the reaper walks through, against the state it runs in:
    distinct names, each still in the store with the snapshot's value,
    each pointing at its own file. *)
Definition snapshot_of (items : list (string * AudioInfo)) (s : State) : Prop :=
  NoDup items.*1 ∧ NoDup (audio_file_store s).*1 ∧
  ∀ k info, (k, info) ∈ items →
    PyDict.get k (audio_file_store s) = Some info ∧ path info = temp_path k.

(** A statement that maintains a property of the state, however it ends. *)
Definition preserves {A : Type} (P : State → Prop) (m : M A) : Prop :=
  ∀ s, P s → P (m s).2.

Definition audio_wf (s : State) : Prop := audio_store_wf (audio_file_store s).

(** ** Reading a response *)

(** The [conversation_id] field of a response, when it has one. *)
Definition conversation_id_of (r : Response) : option string :=
  match body r with
  | chat_json _ id | conversation_audio_json _ _ id _ | history_json id _ => Some id
  | _ => None
  end.

(** The assistant's text in a response of [chat] or [conversation_with_audio]. *)
Definition reply_of (r : Response) : string :=
  match body r with
  | chat_json response _ => response
  | conversation_audio_json _ text_response _ _ => text_response
  | _ => ""
  end.

(** ** The spec's wording, where it differs from the code *)

(** Session resolution on an unknown identifier: the identifier handed
    back is a new one, different from the one the request carried. *)
Definition mints_distinct_identifier (supplied : string) (r : Response) : Prop :=
  ∃ new, conversation_id_of r = Some new ∧ new ≠ supplied.

(** The readiness gate: the request is turned away as "not ready". *)
Definition rejected_not_ready (r : Response) : Prop := status_code r = 503.

(** Self-healing [get]: the entry of [audio_file_store] is gone afterwards. *)
Definition stale_entry_dropped (filename : string) (s : State) : Prop :=
  PyDict.get filename (audio_file_store s) = None.

(** Transcription cleans up: no file is left under the transient name. *)
Definition no_transient_file (env : Env) (s : State) : Prop :=
  files s !! temp_name env = None.


(** [get] says NotFound. *)
Definition not_found (r : Response) : Prop := status_code r = 404.

(** ** A client talking to one conversation *)

(** [chat] called once per message with the same [conversation_id];
    every call has its own environment. *)
Fixpoint chat_session (conversation_id : string) (turns : list (Env * string))
    (s : State) : list Response * State :=
  match turns with
  | [] => ([], s)
  | (env, user_message) :: rest =>
      let r := chat env user_message conversation_id s in
      let rs := chat_session conversation_id rest r.2 in
      (r.1 :: rs.1, rs.2)
  end.

(** The turns that [n] exchanges leave behind, in call order. *)
Fixpoint transcript (messages : list string) (responses : list Response) : list Turn :=
  match messages, responses with
  | text :: messages', r :: responses' =>
      user_turn text :: assistant_turn (reply_of r) :: transcript messages' responses'
  | _, _ => []
  end.

(** ** Sample environments and states *)

Module Sample.
(** Every pipeline answers; the dialog engine says "hello". *)
Definition env : Env := {|
  uuid_conversation := "0b5c0f4e-7c1d-4a9e-9d55-3f1f3a6f2c10";
  uuid_audio := "6f1e2d3c";
  temp_name := "/tmp/chatbot_audio/tmpk3v9x2.wav";
  clock := 1000;
  chatbot := λ _, Returned ["hello"];
  asr := λ _, Returned "good morning";
  narrator := λ _, Returned {| sampling_rate := 16000; audio := [[1 # 2; -1 # 4]] |};
  unlink_error := λ _, None
|}.

Definition with_chatbot (f : Conversation → Outcome (list string)) (e : Env) : Env :=
  {| uuid_conversation := uuid_conversation e; uuid_audio := uuid_audio e;
     temp_name := temp_name e; clock := clock e; chatbot := f; asr := asr e;
     narrator := narrator e; unlink_error := unlink_error e |}.

Definition with_asr (f : list byte → Outcome string) (e : Env) : Env :=
  {| uuid_conversation := uuid_conversation e; uuid_audio := uuid_audio e;
     temp_name := temp_name e; clock := clock e; chatbot := chatbot e; asr := f;
     narrator := narrator e; unlink_error := unlink_error e |}.

Definition at_time (t : Q) (e : Env) : Env :=
  {| uuid_conversation := uuid_conversation e; uuid_audio := uuid_audio e;
     temp_name := temp_name e; clock := t; chatbot := chatbot e; asr := asr e;
     narrator := narrator e; unlink_error := unlink_error e |}.

Definition with_uuid_audio (u : string) (e : Env) : Env :=
  {| uuid_conversation := uuid_conversation e; uuid_audio := u;
     temp_name := temp_name e; clock := clock e; chatbot := chatbot e; asr := asr e;
     narrator := narrator e; unlink_error := unlink_error e |}.

Definition with_unlink_error (f : string → option string) (e : Env) : Env :=
  {| uuid_conversation := uuid_conversation e; uuid_audio := uuid_audio e;
     temp_name := temp_name e; clock := clock e; chatbot := chatbot e; asr := asr e;
     narrator := narrator e; unlink_error := f |}.

(** The dialog engine returns a conversation without generated responses. *)
Definition silent : Env := with_chatbot (λ _, Returned []) env.

(** The speech recogniser rejects the audio. *)
Definition deaf : Env := with_asr (λ _, Raised "Soundfile is either not in the correct format or is malformed.") env.

(** The process once the loader thread is done. *)
Definition ready : State := load_models None initial_state.

Definition riff : list byte := [x52; x49; x46; x46].

(** An artifact was synthesised, then its file vanished from the scratch
    directory. *)
Definition stale : State :=
  run [loaded None; served env (POST_text_to_speech "hi");
       removed_outside (temp_path "6f1e2d3c.wav")] initial_state.

(** Two artifacts synthesised at time 1000. *)
Definition two_artifacts : State :=
  run [loaded None;
       served env (POST_text_to_speech "one");
       served (with_uuid_audio "9a8b7c6d" env) (POST_text_to_speech "two")] initial_state.

(** A reaper cycle at time 4601 in which the operating system refuses to
    remove the file of the first artifact. *)
Definition refusing : Env :=
  at_time 4601
    (with_unlink_error
       (λ p, if decide (p = temp_path "6f1e2d3c.wav")
             then Some "[Errno 13] Permission denied" else None) env).
End Sample.

(** ** Vocabulary of the handler-level properties *)

(** The guard a request fails, as the handlers test it: an empty
    [message] or [text], a missing ['audio'] part. *)
Definition invalid (req : Request) : option string :=
  match req with
  | POST_chat "" _ => Some "No message provided"
  | POST_speech_to_text None => Some "No audio file provided"
  | POST_text_to_speech "" => Some "No text provided"
  | POST_conversation_with_audio None _ => Some "No audio file provided"
  | POST_language_feedback "" => Some "No text provided"
  | _ => None
  end.

(** The endpoints that only look: status probe, audio download,
    conversation read, and the placeholder scorer. *)
Definition read_only (req : Request) : bool :=
  match req with
  | GET_status | GET_audio _ | GET_conversation _ | POST_language_feedback _ => true
  | _ => false
  end.

(** The event does not take the session [cid] away: it is not a delete of
    [cid], and not a dialog request without identifier whose [uuid4] draw
    is [cid] (which would install a new empty list under it). *)
Definition spares (cid : string) (ev : Event) : Prop :=
  match ev with
  | served _ (DELETE_conversation c) => c ≠ cid
  | served env (POST_chat _ c) | served env (POST_conversation_with_audio _ c) =>
      c = "" → uuid_conversation env ≠ cid
  | _ => True
  end.

(** Every entry of the artifact store has its file in the scratch directory. *)
Definition backed (s : State) : Prop :=
  ∀ filename info,
    PyDict.get filename (audio_file_store s) = Some info → is_Some (files s !! path info).

(** The event leaves artifact files alone from outside, and a request's
    transient file gets a name that is not in use, as [NamedTemporaryFile]
    guarantees. *)
Definition tidy (ev : Event) (s : State) : Prop :=
  match ev with
  | served env _ => files s !! temp_name env = None
  | removed_outside _ => False
  | _ => True
  end.

(** The name of the view function a request is routed to. *)
Definition func_name (req : Request) : string :=
  match req with
  | GET_status => "status"
  | POST_chat _ _ => "chat"
  | POST_speech_to_text _ => "speech_to_text"
  | POST_text_to_speech _ => "text_to_speech"
  | POST_conversation_with_audio _ _ => "conversation_with_audio"
  | GET_audio _ => "get_audio"
  | POST_language_feedback _ => "language_feedback"
  | GET_conversation _ => "get_conversation_history"
  | DELETE_conversation _ => "delete_conversation"
  end.

(** The [error] field of an error response. *)
Definition error_of (r : Response) : string :=
  match body r with
  | error_json e => e
  | _ => ""
  end.

(** A view function that logs nothing itself and never returns a 500. *)
Definition plain (func : M Response) : Prop :=
  keeps log func ∧ ∀ s r s', func s = (Returned r, s') → status_code r ≠ 500.

(** * Properties *)

Ltac run_monad :=
  unfold mbind, M_bind, mret, M_ret, read, update, raise, invoke, try_except,
    logger, write_file, set_conversation, get_history in *; simpl in *.

(** ** Frame conditions *)

Section Frames.
Context {B : Type} (proj : State → B).

Lemma keeps_ret {A} (a : A) : keeps proj (mret a).
Proof. by intros s. Qed.

Lemma keeps_raise {A} e : keeps proj (raise (A:=A) e).
Proof. by intros s. Qed.

Lemma keeps_read {A} (f : State → A) : keeps proj (read f).
Proof. by intros s. Qed.

Lemma keeps_bind {A C} (m : M A) (f : A → M C) :
  keeps proj m → (∀ a, keeps proj (f a)) → keeps proj (m ≫= f).
Proof.
  intros Hm Hf s. unfold mbind, M_bind.
  specialize (Hm s). destruct (m s) as [[a|e] s']; simpl in *; [|done].
  by rewrite Hf.
Qed.

Lemma keeps_try_except {A} (m : M A) (h : string → M A) :
  keeps proj m → (∀ e, keeps proj (h e)) → keeps proj (try_except m h).
Proof.
  intros Hm Hh s. unfold try_except.
  specialize (Hm s). destruct (m s) as [[a|e] s']; simpl in *; [done|].
  by rewrite Hh.
Qed.

Lemma keeps_for_each {A} (f : A → M unit) (l : list A) :
  (∀ x, keeps proj (f x)) → keeps proj (for_each f l).
Proof.
  intros Hf. induction l as [|x l IH]; simpl.
  - apply keeps_ret.
  - apply keeps_bind; auto.
Qed.

Lemma keeps_update (f : State → State) :
  (∀ s, proj (f s) = proj s) → keeps proj (update f).
Proof. intros Hf s. apply Hf. Qed.
End Frames.

Lemma cleanup_entry_keeps_conversations env now item :
  keeps conversation_store (cleanup_entry env now item).
Proof.
  unfold cleanup_entry. destruct (expired now item.2); [|apply keeps_ret].
  apply keeps_try_except.
  - apply keeps_bind; [apply keeps_read|]. intros there.
    apply keeps_bind.
    + destruct there; [|apply keeps_ret].
      intros s. unfold os_unlink.
      destruct (files s !! _); [|done]. by destruct (unlink_error env _).
    + intros _. apply keeps_bind.
      * intros s. unfold del_audio. by destruct (PyDict.get _ _).
      * intros _. by apply keeps_update.
  - intros e. by apply keeps_update.
Qed.

Lemma cleanup_cycle_keeps_conversations env :
  keeps conversation_store (cleanup_cycle env).
Proof.
  unfold cleanup_cycle. apply keeps_try_except.
  - apply keeps_bind; [apply keeps_read|]. intros snapshot.
    apply keeps_for_each. intros item. apply cleanup_entry_keeps_conversations.
  - intros e. by apply keeps_update.
Qed.

(** ** What the three blocks compute *)

Lemma resolve_conversation_spec env cid s :
  resolve_conversation env cid s =
  (Returned (resolved_id env cid),
   with_conversation_store (resolved_store env cid (conversation_store s)) s).
Proof.
  unfold resolve_conversation, resolved_id, resolved_store.
  destruct (decide (cid = "")) as [->|Hne]; [reflexivity|].
  run_monad.
  destruct (conversation_store s !! cid) as [h|] eqn:Hh; simpl.
  - destruct s; reflexivity.
  - reflexivity.
Qed.

Lemma resolved_store_lookup env cid m :
  is_Some (resolved_store env cid m !! resolved_id env cid).
Proof.
  unfold resolved_store, resolved_id.
  destruct (decide (cid = "")).
  - rewrite lookup_insert_eq. eauto.
  - destruct (m !! cid) eqn:E; [rewrite E; eauto|rewrite lookup_insert_eq; eauto].
Qed.

Lemma dialog_turn_spec env msg cid s :
  dialog_turn env msg cid s =
  let id := resolved_id env cid in
  let m := resolved_store env cid (conversation_store s) in
  let h := resolved_history env cid (conversation_store s) in
  let convo := {| new_user_input := msg; calls := replay h |} in
  let s1 := with_engine_calls (engine_calls s ++ [call_chatbot convo])
              (with_conversation_store m s) in
  match chatbot env convo with
  | Raised e => (Raised e, s1)
  | Returned generated =>
      (Returned (newest_response generated, id),
       with_conversation_store
         (<[id := h ++ [user_turn msg; assistant_turn (newest_response generated)]]> m) s1)
  end.
Proof.
  unfold dialog_turn. unfold mbind at 1, M_bind at 1.
  rewrite resolve_conversation_spec.
  unfold resolved_history.
  destruct (resolved_store_lookup env cid (conversation_store s)) as [h Hh].
  rewrite Hh. run_monad. rewrite Hh.
  destruct (chatbot env _) as [g|e]; simpl; [|reflexivity].
  f_equal. unfold with_conversation_store, with_engine_calls; simpl. f_equal.
  rewrite !insert_insert_eq. by rewrite <- app_assoc.
Qed.

Lemma transcribe_spec env data s :
  transcribe env data s =
  let name := temp_name env in
  let s1 := with_engine_calls (engine_calls s ++ [call_asr name])
              (with_files (<[name := upload data]> (files s)) s) in
  match asr env data with
  | Raised e => (Raised e, s1)
  | Returned text =>
      match unlink_error env name with
      | Some e => (Raised e, s1)
      | None => (Returned text, with_files (delete name (files s1)) s1)
      end
  end.
Proof.
  unfold transcribe, os_unlink. run_monad.
  destruct (asr env data) as [text|e]; simpl; [|reflexivity].
  rewrite lookup_insert_eq.
  by destruct (unlink_error env (temp_name env)).
Qed.

Lemma synthesize_spec env text s :
  synthesize env text s =
  let s1 := with_engine_calls (engine_calls s ++ [call_narrator text]) s in
  let filename := uuid_audio env +:+ ".wav" in
  match narrator env text with
  | Raised e => (Raised e, s1)
  | Returned result =>
      match audio result with
      | [] => (Raised "index 0 is out of bounds for axis 0 with size 0", s1)
      | samples :: _ =>
          (Returned filename,
           with_audio_file_store
             (PyDict.set filename
                {| path := temp_path filename; timestamp := clock env; type := "audio/wav" |}
                (audio_file_store s))
             (with_files
                (<[temp_path filename := wav_file (sampling_rate result) samples]> (files s))
                s1))
      end
  end.
Proof.
  unfold synthesize, first_row. run_monad.
  destruct (narrator env text) as [result|e]; simpl; [|reflexivity].
  by destruct (audio result).
Qed.

(** ** The session store only grows by (user, assistant) pairs *)

Lemma pair_induction {A} (P : list A → Prop) :
  P [] → (∀ x, P [x]) → (∀ x y l, P l → P (x :: y :: l)) → ∀ l, P l.
Proof.
  intros H0 H1 H2.
  assert (∀ l, P l ∧ ∀ x, P (x :: l)) as Hboth.
  { induction l as [|y l [IHl IHxl]]; split; auto. }
  intros l. apply Hboth.
Qed.

Lemma well_paired_nil : well_paired [].
Proof. split; [by exists 0|]. intros i t Hi. by rewrite lookup_nil in Hi. Qed.

Lemma well_paired_cons2 u a rest :
  well_paired (u :: a :: rest) ↔
  role u = user ∧ role a = assistant ∧ well_paired rest.
Proof.
  unfold well_paired. simpl. split.
  - intros [Hlen Hpos]. split_and!.
    + apply (Hpos 0 u). done.
    + apply (Hpos 1 a). done.
    + exact (proj1 (Nat.Even_succ_succ _) Hlen).
    + intros i t Hi. apply (Hpos (S (S i)) t Hi).
  - intros (Hu & Ha & Hlen & Hpos). split.
    + exact (proj2 (Nat.Even_succ_succ _) Hlen).
    + intros [|[|i]] t Hi; simpl in *; simplify_eq; auto.
Qed.

Lemma alternating_well_paired h : alternating h = true ↔ well_paired h.
Proof.
  induction h as [|x|u a rest IH] using pair_induction.
  - split; [intros _; apply well_paired_nil|done].
  - split; [done|]. intros [[n Hn] _]. simpl in Hn. lia.
  - rewrite well_paired_cons2, <- IH. simpl.
    rewrite !andb_true_iff, !bool_decide_eq_true. tauto.
Qed.

Lemma well_paired_app_pair h text reply :
  well_paired h → well_paired (h ++ [user_turn text; assistant_turn reply]).
Proof.
  induction h as [|x|u a rest IH] using pair_induction; intros Hh.
  - by apply alternating_well_paired.
  - destruct Hh as [[n Hn] _]. simpl in Hn. lia.
  - apply well_paired_cons2 in Hh as (Hu & Ha & Hrest).
    simpl. apply well_paired_cons2. auto.
Qed.

Lemma store_mutation_paired m m' :
  store_mutation m m' →
  (∀ id h, m !! id = Some h → well_paired h) →
  (∀ id h, m' !! id = Some h → well_paired h).
Proof.
  intros Hmut Hm id' h'. destruct Hmut as [id|id h text reply Hid|id].
  - rewrite lookup_insert. case_decide; [|by apply Hm].
    intros [= <-]. apply well_paired_nil.
  - rewrite lookup_insert. case_decide; [|by apply Hm].
    intros [= <-]. apply well_paired_app_pair. by eapply Hm.
  - rewrite lookup_delete. case_decide; [done|by apply Hm].
Qed.

Lemma mutates_keeps {A} (m : M A) : keeps conversation_store m → mutates m.
Proof. intros Hk s. by rewrite Hk. Qed.

Lemma mutates_bind {A C} (m : M A) (f : A → M C) :
  mutates m → (∀ a, mutates (f a)) → mutates (m ≫= f).
Proof.
  intros Hm Hf s. unfold mbind, M_bind.
  specialize (Hm s). destruct (m s) as [[a|e] s']; simpl in *; [|done].
  etrans; [exact Hm|apply Hf].
Qed.

Lemma resolved_store_mutation env cid m :
  rtc store_mutation m (resolved_store env cid m).
Proof.
  unfold resolved_store. destruct (decide (cid = "")).
  - apply rtc_once. constructor.
  - destruct (m !! cid); [done|]. apply rtc_once. constructor.
Qed.

Lemma dialog_turn_mutates env msg cid : mutates (dialog_turn env msg cid).
Proof.
  intros s. rewrite dialog_turn_spec. cbv zeta.
  pose proof (resolved_store_mutation env cid (conversation_store s)) as Hres.
  destruct (chatbot env _) as [generated|e]; simpl; [|done].
  eapply rtc_r; [exact Hres|].
  apply pair_appended. unfold resolved_history.
  by destruct (resolved_store_lookup env cid (conversation_store s)) as [h ->].
Qed.

Lemma transcribe_keeps_conversations env data :
  keeps conversation_store (transcribe env data).
Proof.
  intros s. rewrite transcribe_spec. cbv zeta.
  destruct (asr env data); [|done]. by destruct (unlink_error env _).
Qed.

Lemma synthesize_keeps_conversations env text :
  keeps conversation_store (synthesize env text).
Proof.
  intros s. rewrite synthesize_spec. cbv zeta.
  destruct (narrator env text) as [result|]; [|done]. by destruct (audio result).
Qed.

Lemma api_response_mutates name (func : M Response) s :
  mutates func →
  rtc store_mutation (conversation_store s)
    (conversation_store (api_response name func s).2).
Proof.
  intros Hf. unfold api_response. specialize (Hf s).
  by destruct (func s) as [[r|e] s'].
Qed.

Lemma ensure_models_loaded_mutates (f : Handler) s :
  rtc store_mutation (conversation_store s) (conversation_store (f s).2) →
  rtc store_mutation (conversation_store s)
    (conversation_store (ensure_models_loaded f s).2).
Proof. unfold ensure_models_loaded. by destruct (models_loaded s). Qed.

Lemma dispatch_mutates env req s :
  rtc store_mutation (conversation_store s) (conversation_store (dispatch env req s).2).
Proof.
  destruct req as [|msg cid|file|text|file cid|filename|text|cid|cid]; simpl.
  - done.
  - apply ensure_models_loaded_mutates, api_response_mutates.
    unfold chat_view. case_decide; [by apply mutates_keeps|].
    apply mutates_bind; [apply dialog_turn_mutates|].
    intros r. by apply mutates_keeps.
  - apply ensure_models_loaded_mutates, api_response_mutates, mutates_keeps.
    destruct file as [data|]; [|done].
    apply keeps_bind; [apply transcribe_keeps_conversations|done].
  - apply ensure_models_loaded_mutates, api_response_mutates, mutates_keeps.
    unfold text_to_speech_view. case_decide; [done|].
    apply keeps_bind; [apply synthesize_keeps_conversations|done].
  - apply ensure_models_loaded_mutates, api_response_mutates.
    destruct file as [data|]; [|by apply mutates_keeps]. simpl.
    apply mutates_bind; [apply mutates_keeps, transcribe_keeps_conversations|].
    intros user_message.
    apply mutates_bind; [apply dialog_turn_mutates|].
    intros r. apply mutates_keeps.
    apply keeps_bind; [apply synthesize_keeps_conversations|done].
  - apply api_response_mutates, mutates_keeps.
    intros s'. unfold get_audio_view.
    destruct (PyDict.get _ _); [|done]. by destruct (files s' !! _).
  - apply ensure_models_loaded_mutates, api_response_mutates, mutates_keeps.
    unfold language_feedback_view. by case_decide.
  - apply api_response_mutates, mutates_keeps.
    intros s'. unfold get_conversation_history_view.
    by destruct (conversation_store s' !! cid).
  - apply api_response_mutates.
    intros s'. unfold delete_conversation_view. run_monad.
    destruct (bool_decide _); simpl; [|done].
    apply rtc_once. constructor.
Qed.

Lemma step_mutates ev s :
  rtc store_mutation (conversation_store s) (conversation_store (step ev s)).
Proof.
  destruct ev as [env req|failure|env|p]; simpl.
  - apply dispatch_mutates.
  - by destruct failure.
  - by rewrite cleanup_cycle_keeps_conversations.
  - done.
Qed.

Lemma mutations_paired m m' :
  rtc store_mutation m m' →
  (∀ id h, m !! id = Some h → well_paired h) →
  (∀ id h, m' !! id = Some h → well_paired h).
Proof.
  induction 1 as [|m1 m2 m3 H12 _ IH]; [done|].
  intros Hm. apply IH. by eapply store_mutation_paired.
Qed.

Lemma initial_state_paired : paired_store initial_state.
Proof. intros id h Hid. simpl in Hid. by rewrite lookup_empty in Hid. Qed.

Lemma step_paired ev s : paired_store s → paired_store (step ev s).
Proof. intros Hs. exact (mutations_paired _ _ (step_mutates ev s) Hs). Qed.

(** C10. In sequential execution every operation keeps the invariant of
    the session store: whatever events happen (requests served, models
    loaded, reaper cycles, files removed from outside), if every turn list
    of the store had even length with user turns at the even positions
    and assistant turns at the odd ones before, the same holds after. *)
Theorem turn_lists_stay_paired (evs : list Event) (s : State) :
  paired_store s → paired_store (run evs s).
Proof.
  revert s. induction evs as [|ev evs IH]; intros s Hs; [done|].
  simpl. apply IH. by apply step_paired.
Qed.

(** ** The [chat] handler, case by case *)

Lemma chat_spec env msg cid s :
  chat env msg cid s =
  if models_loaded s then
    if decide (msg = "") then (failed 400 "No message provided", s)
    else match dialog_turn env msg cid s with
         | (Returned r, s') => (ok (chat_json r.1 r.2), s')
         | (Raised e, s') =>
             (failed 500 e, with_log (log s' ++ [log_error ("Error in chat: " +:+ e)]) s')
         end
  else (NOT_READY, s).
Proof.
  unfold chat, ensure_models_loaded, api_response, chat_view.
  destruct (models_loaded s); [|reflexivity].
  case_decide; [reflexivity|].
  unfold mbind, M_bind, mret, M_ret.
  by destruct (dialog_turn env msg cid s) as [[r|e] s'].
Qed.

Lemma resolved_id_supplied env cid : cid ≠ "" → resolved_id env cid = cid.
Proof. intros Hne. unfold resolved_id. by case_decide. Qed.

Lemma resolved_history_supplied env cid m :
  cid ≠ "" → resolved_history env cid m = default [] (m !! cid).
Proof.
  intros Hne. unfold resolved_history, resolved_store, resolved_id.
  case_decide; [done|].
  destruct (m !! cid) as [h|] eqn:Hh; [by rewrite Hh|by rewrite lookup_insert_eq].
Qed.

Lemma resolved_history_unknown env cid m :
  cid = "" ∨ m !! cid = None → resolved_history env cid m = [].
Proof.
  intros Hcid. unfold resolved_history, resolved_store, resolved_id.
  case_decide; [by rewrite lookup_insert_eq|].
  destruct Hcid as [|Hcid]; [done|]. by rewrite Hcid, lookup_insert_eq.
Qed.

(** A successful call of [chat] on a named conversation: what it answers
    and what it leaves in the store. *)
Lemma chat_success env msg cid s :
  cid ≠ "" →
  status_code (chat env msg cid s).1 = 200 →
  models_loaded (chat env msg cid s).2 = models_loaded s ∧
  conversation_id_of (chat env msg cid s).1 = Some cid ∧
  conversation_store (chat env msg cid s).2 !! cid =
    Some (default [] (conversation_store s !! cid)
          ++ [user_turn msg; assistant_turn (reply_of (chat env msg cid s).1)]).
Proof.
  intros Hne. rewrite chat_spec.
  destruct (models_loaded s) eqn:Hl; [|done].
  case_decide; [done|].
  rewrite dialog_turn_spec. cbv zeta.
  rewrite resolved_id_supplied, resolved_history_supplied by done.
  destruct (chatbot env _) as [generated|e]; simpl; [|done].
  intros _. split_and!; [done..|]. by rewrite lookup_insert_eq.
Qed.

Lemma chat_session_history cid turns : ∀ s h0,
  cid ≠ "" →
  default [] (conversation_store s !! cid) = h0 →
  turns ≠ [] →
  Forall (λ r, status_code r = 200) (chat_session cid turns s).1 →
  conversation_store (chat_session cid turns s).2 !! cid =
    Some (h0 ++ transcript turns.*2 (chat_session cid turns s).1).
Proof.
  induction turns as [|[env msg] rest IH]; intros s h0 Hne Hh0 Hnil Hok; [done|].
  simpl in *. apply Forall_cons in Hok as [Hok1 Hok].
  destruct (chat_success env msg cid s Hne Hok1) as (_ & _ & Hstore).
  rewrite Hh0 in Hstore.
  destruct rest as [|turn rest'].
  - simpl. exact Hstore.
  - rewrite (IH (chat env msg cid s).2
               (h0 ++ [user_turn msg; assistant_turn (reply_of (chat env msg cid s).1)]));
      [|done|by rewrite Hstore|done|exact Hok].
    by rewrite <- app_assoc.
Qed.

Lemma transcript_length messages responses :
  length messages = length responses →
  length (transcript messages responses) = 2 * length messages.
Proof.
  revert responses. induction messages as [|m ms IH]; intros [|r rs] Hlen;
    simpl in *; try done.
  rewrite IH by lia. lia.
Qed.

Lemma chat_session_length cid turns s :
  length (chat_session cid turns s).1 = length turns.
Proof.
  revert s. induction turns as [|[env msg] rest IH]; intros s; simpl; [done|].
  by rewrite IH.
Qed.

Lemma transcript_well_paired messages responses :
  well_paired (transcript messages responses).
Proof.
  revert responses. induction messages as [|m ms IH]; intros [|r rs]; simpl;
    try apply well_paired_nil.
  apply well_paired_cons2. auto.
Qed.

(** C4. [N >= 1] successful calls of [chat] against one conversation id
    whose session is new (unknown to the store, or still empty): reading
    the conversation afterwards answers 200 with exactly [2 N] turns, in
    call order, a user turn followed by the assistant's reply for each
    call. *)
Theorem history_after_n_turns (cid : string) (turns : list (Env * string)) (s : State) :
  cid ≠ "" →
  default [] (conversation_store s !! cid) = [] →
  turns ≠ [] →
  Forall (λ r, status_code r = 200) (chat_session cid turns s).1 →
  ∃ messages,
    (get_conversation_history cid (chat_session cid turns s).2).1
      = ok (history_json cid messages) ∧
    length messages = 2 * length turns ∧
    messages = transcript turns.*2 (chat_session cid turns s).1 ∧
    well_paired messages.
Proof.
  intros Hne Hnew Hnil Hok.
  pose proof (chat_session_history cid turns s [] Hne Hnew Hnil Hok) as Hstore.
  simpl in Hstore.
  exists (transcript turns.*2 (chat_session cid turns s).1). split_and!.
  - unfold get_conversation_history, api_response, get_conversation_history_view.
    by rewrite Hstore.
  - rewrite transcript_length; rewrite length_fmap; [done|].
    by rewrite chat_session_length.
  - done.
  - apply transcript_well_paired.
Qed.

(** ** The round trip when every stage succeeds *)

Lemma conversation_with_audio_success env data cid s msg generated speech row rows :
  models_loaded s = true →
  asr env data = Returned msg →
  unlink_error env (temp_name env) = None →
  chatbot env {| new_user_input := msg;
                 calls := replay (resolved_history env cid (conversation_store s)) |}
    = Returned generated →
  narrator env (newest_response generated) = Returned speech →
  audio speech = row :: rows →
  ∃ s',
    conversation_with_audio env (Some data) cid s =
      (ok (conversation_audio_json msg (newest_response generated) (resolved_id env cid)
             ("/api/audio/" +:+ uuid_audio env +:+ ".wav")), s') ∧
    conversation_store s' !! resolved_id env cid =
      Some (resolved_history env cid (conversation_store s)
            ++ [user_turn msg; assistant_turn (newest_response generated)]).
Proof.
  intros Hl Hasr Hunlink Hbot Htts Haudio.
  unfold conversation_with_audio, ensure_models_loaded, api_response,
    conversation_with_audio_view.
  rewrite Hl. unfold mbind at 1, M_bind at 1.
  rewrite transcribe_spec. cbv zeta. rewrite Hasr, Hunlink.
  unfold mbind at 1, M_bind at 1.
  rewrite dialog_turn_spec. cbv zeta. simpl conversation_store. rewrite Hbot.
  unfold mbind at 1, M_bind at 1.
  rewrite synthesize_spec. cbv zeta. simpl. rewrite Htts, Haudio. simpl.
  eexists. split; [reflexivity|]. simpl. by rewrite lookup_insert_eq.
Qed.

(** C7. When the dialog engine hands back a conversation without any
    generated response, the dialog turn does not fail: the assistant's
    reply is the literal "I'm not sure how to respond to that.", and it
    is appended to the session right after the user turn.  This holds for
    [chat] (the message being non-empty) and for the round trip
    [conversation_with_audio] whose transcription and synthesis stages
    succeed. *)
Theorem fallback_reply (env : Env) (msg cid : string) (s : State) :
  models_loaded s = true →
  chatbot env {| new_user_input := msg;
                 calls := replay (resolved_history env cid (conversation_store s)) |}
    = Returned [] →
  let id := if decide (cid = "") then uuid_conversation env else cid in
  let h := resolved_history env cid (conversation_store s) in
  let appended :=
    h ++ [user_turn msg; assistant_turn "I'm not sure how to respond to that."] in
  (msg ≠ "" →
     (chat env msg cid s).1 = ok (chat_json "I'm not sure how to respond to that." id) ∧
     conversation_store (chat env msg cid s).2 !! id = Some appended) ∧
  (∀ data speech row rows,
     asr env data = Returned msg →
     unlink_error env (temp_name env) = None →
     narrator env "I'm not sure how to respond to that." = Returned speech →
     audio speech = row :: rows →
     (conversation_with_audio env (Some data) cid s).1 =
       ok (conversation_audio_json msg "I'm not sure how to respond to that." id
             ("/api/audio/" +:+ uuid_audio env +:+ ".wav")) ∧
     conversation_store (conversation_with_audio env (Some data) cid s).2 !! id
       = Some appended).
Proof.
  intros Hl Hbot. cbv zeta.
  change (if decide (cid = "") then uuid_conversation env else cid)
    with (resolved_id env cid).
  split.
  - intros Hmsg. rewrite chat_spec, Hl. case_decide; [done|].
    rewrite dialog_turn_spec. cbv zeta. rewrite Hbot. simpl.
    by rewrite lookup_insert_eq.
  - intros data speech row rows Hasr Hunlink Htts Haudio.
    destruct (conversation_with_audio_success env data cid s msg [] speech row rows)
      as (s' & -> & Hst); done.
Qed.

(** ** Session resolution *)

(** C1, as stated, fails: a [chat] request carrying the identifier "abc",
    which the store does not know, is answered with "abc" itself. *)
Lemma unknown_id_is_not_replaced :
  conversation_store Sample.ready !! "abc" = None ∧
  (chat Sample.env "hi" "abc" Sample.ready).1 = ok (chat_json "hello" "abc") ∧
  ¬ mints_distinct_identifier "abc" (chat Sample.env "hi" "abc" Sample.ready).1.
Proof.
  split_and!; [done|done|].
  intros (new & Hid & Hnew). vm_compute in Hid. congruence.
Qed.

(** C1, amended. Session resolution never fails.  A request that carries
    a non-empty identifier unknown to the store gets an empty turn list
    installed under that very identifier, and the identifier is handed
    back unchanged; a request with an empty identifier gets the list
    installed under a freshly drawn [uuid4] string, which is handed back.
    Stated for the resolution step, for [chat] (the message being
    non-empty and the dialog engine answering) and for the round trip
    whose stages succeed. *)
Theorem session_resolution (env : Env) (msg cid : string) (s : State) :
  cid = "" ∨ conversation_store s !! cid = None →
  models_loaded s = true →
  let id := if decide (cid = "") then uuid_conversation env else cid in
  resolve_conversation env cid s =
    (Returned id, with_conversation_store (<[id := []]> (conversation_store s)) s) ∧
  (∀ generated,
     msg ≠ "" →
     chatbot env {| new_user_input := msg; calls := [] |} = Returned generated →
     conversation_id_of (chat env msg cid s).1 = Some id ∧
     conversation_store (chat env msg cid s).2 !! id =
       Some [user_turn msg; assistant_turn (newest_response generated)]) ∧
  (∀ data generated speech row rows,
     asr env data = Returned msg →
     unlink_error env (temp_name env) = None →
     chatbot env {| new_user_input := msg; calls := [] |} = Returned generated →
     narrator env (newest_response generated) = Returned speech →
     audio speech = row :: rows →
     conversation_id_of (conversation_with_audio env (Some data) cid s).1 = Some id ∧
     conversation_store (conversation_with_audio env (Some data) cid s).2 !! id =
       Some [user_turn msg; assistant_turn (newest_response generated)]).
Proof.
  intros Hcid Hl. cbv zeta.
  change (if decide (cid = "") then uuid_conversation env else cid)
    with (resolved_id env cid).
  pose proof (resolved_history_unknown env cid (conversation_store s) Hcid) as Hh.
  split; [|split].
  - rewrite resolve_conversation_spec. do 2 f_equal.
    unfold resolved_store, resolved_id. case_decide; [done|].
    destruct Hcid as [|Hcid]; [done|]. by rewrite Hcid.
  - intros generated Hmsg Hbot.
    change [] with (replay []) in Hbot. rewrite <- Hh in Hbot.
    rewrite chat_spec, Hl. case_decide; [done|].
    rewrite dialog_turn_spec. cbv zeta. rewrite Hbot. simpl.
    by rewrite lookup_insert_eq, Hh.
  - intros data generated speech row rows Hasr Hunlink Hbot Htts Haudio.
    change [] with (replay []) in Hbot. rewrite <- Hh in Hbot.
    destruct (conversation_with_audio_success env data cid s msg generated speech row rows)
      as (s' & -> & Hst); try done.
    simpl. by rewrite Hst, Hh.
Qed.

(** ** The readiness gate *)

(** C8, as stated, fails: with the models still loading, the delete
    endpoint (not the status probe) is not turned away with 503; it
    answers 200. *)
Lemma delete_is_served_while_loading :
  models_loaded initial_state = false ∧
  dispatch Sample.env (DELETE_conversation "abc") initial_state =
    (ok (deleted_json true "Conversation deleted"), initial_state) ∧
  ¬ rejected_not_ready (dispatch Sample.env (DELETE_conversation "abc") initial_state).1.
Proof.
  split_and!; [done|done|].
  unfold rejected_not_ready. intros H. vm_compute in H. discriminate H.
Qed.

(** C8, amended. While the readiness flag is not set, the five endpoints
    decorated with [ensure_models_loaded] (chat, speech-to-text,
    text-to-speech, conversation-with-audio, language-feedback) answer 503
    and leave the whole state as it was: no pipeline is invoked, nothing
    is written, nothing is logged.  The other four are not gated and never
    answer 503: the status probe reports the flag, and audio download,
    conversation read and conversation delete do exactly what they do once
    the models are loaded. *)
Theorem readiness_gate (env : Env) (req : Request) (s : State) :
  models_loaded s = false →
  if gated req then dispatch env req s = (NOT_READY, s)
  else
    ¬ rejected_not_ready (dispatch env req s).1 ∧
    dispatch env req (with_models_loaded true s) =
      (match req with
       | GET_status => ok (status_json "operational" true)
       | _ => (dispatch env req s).1
       end,
       with_models_loaded true (dispatch env req s).2).
Proof.
  intros Hl.
  destruct req as [|msg cid|file|text|file cid|filename|text|cid|cid]; simpl;
    unfold chat, speech_to_text, text_to_speech, conversation_with_audio,
      language_feedback, ensure_models_loaded, rejected_not_ready;
    rewrite ?Hl; try reflexivity.
  - split; [simpl; lia|reflexivity].
  - unfold get_audio, api_response, get_audio_view. simpl.
    destruct (PyDict.get filename (audio_file_store s)) as [info|]; simpl.
    + destruct (files s !! path info); simpl; (split; [lia|reflexivity]).
    + split; [lia|reflexivity].
  - unfold get_conversation_history, api_response, get_conversation_history_view. simpl.
    destruct (conversation_store s !! cid); simpl; (split; [lia|reflexivity]).
  - unfold delete_conversation, api_response, delete_conversation_view. run_monad.
    destruct (bool_decide _); simpl; (split; [lia|reflexivity]).
Qed.

(** ** Downloading an artifact *)

Lemma get_audio_spec filename s :
  get_audio filename s =
  (match PyDict.get filename (audio_file_store s) with
   | None => failed 404 "Audio file not found"
   | Some file_info =>
       match files s !! path file_info with
       | None => failed 404 "Audio file not found on server"
       | Some data => ok (send_file data (type file_info) filename)
       end
   end, s).
Proof.
  unfold get_audio, api_response, get_audio_view.
  destruct (PyDict.get filename (audio_file_store s)) as [info|]; [|done].
  by destruct (files s !! path info).
Qed.

(** C2, as stated, fails: the artifact "6f1e2d3c.wav" is in the store and
    its file is gone.  [get_audio] answers 404, but the entry is still in
    the store afterwards, and a second [get_audio] does not take the
    never-issued branch ("Audio file not found"). *)
Lemma stale_entry_survives_get :
  (get_audio "6f1e2d3c.wav" Sample.stale).1 = failed 404 "Audio file not found on server" ∧
  ¬ stale_entry_dropped "6f1e2d3c.wav" (get_audio "6f1e2d3c.wav" Sample.stale).2 ∧
  (get_audio "6f1e2d3c.wav" (get_audio "6f1e2d3c.wav" Sample.stale).2).1
    ≠ failed 404 "Audio file not found".
Proof.
  split_and!.
  - by vm_compute.
  - unfold stale_entry_dropped. by vm_compute.
  - by vm_compute.
Qed.

(** C2, amended. [get_audio] answers 404 both when the identifier is not
    in the store and when it is in the store but the file is absent; it
    never changes the state (the stale entry stays), so a second
    [get_audio] gives the same answer as the first. *)
Theorem get_audio_not_found (filename : string) (s : State) :
  PyDict.get filename (audio_file_store s) = None ∨
  (∃ info, PyDict.get filename (audio_file_store s) = Some info ∧
           files s !! path info = None) →
  (get_audio filename s).1 =
    failed 404 (match PyDict.get filename (audio_file_store s) with
                | None => "Audio file not found"
                | Some _ => "Audio file not found on server"
                end) ∧
  (get_audio filename s).2 = s ∧
  get_audio filename (get_audio filename s).2 = get_audio filename s.
Proof.
  intros Hcase. rewrite !get_audio_spec. simpl. rewrite ?get_audio_spec.
  destruct Hcase as [->|(info & -> & ->)]; done.
Qed.

(** ** Transcription and its transient file *)

Lemma speech_to_text_spec env data s :
  models_loaded s = true →
  speech_to_text env (Some data) s =
  match transcribe env data s with
  | (Returned text, s') => (ok (text_json text), s')
  | (Raised e, s') =>
      (failed 500 e,
       with_log (log s' ++ [log_error ("Error in speech_to_text: " +:+ e)]) s')
  end.
Proof.
  intros Hl. unfold speech_to_text, ensure_models_loaded, api_response,
    speech_to_text_view. rewrite Hl.
  unfold mbind, M_bind, mret, M_ret.
  by destruct (transcribe env data s) as [[text|e] s'].
Qed.

Lemma transcription_cleans_up env data s text :
  models_loaded s = true →
  asr env data = Returned text →
  unlink_error env (temp_name env) = None →
  (speech_to_text env (Some data) s).1 = ok (text_json text) ∧
  no_transient_file env (speech_to_text env (Some data) s).2.
Proof.
  intros Hl Hasr Hunlink. rewrite speech_to_text_spec, transcribe_spec by done.
  cbv zeta. rewrite Hasr, Hunlink. split; [done|].
  unfold no_transient_file. simpl. by rewrite lookup_delete_eq.
Qed.

(** C3 on the code. When the speech-recognition pipeline raises, the
    handler answers 500 with the exception text, and the file it wrote
    under the transient name is still there: [os.unlink] sits after the
    pipeline call and is skipped.  The same holds for the transcription
    stage of [conversation_with_audio]. *)
Theorem failed_transcription_leaves_file (env : Env) (data : list byte)
    (cid e : string) (s : State) :
  models_loaded s = true →
  asr env data = Raised e →
  (speech_to_text env (Some data) s).1 = failed 500 e ∧
  files (speech_to_text env (Some data) s).2 !! temp_name env = Some (upload data) ∧
  (conversation_with_audio env (Some data) cid s).1 = failed 500 e ∧
  files (conversation_with_audio env (Some data) cid s).2 !! temp_name env
    = Some (upload data).
Proof.
  intros Hl Hasr.
  rewrite speech_to_text_spec, transcribe_spec by done. cbv zeta. rewrite Hasr.
  split_and!; [done|simpl; by rewrite lookup_insert_eq|..];
    unfold conversation_with_audio, ensure_models_loaded, api_response,
      conversation_with_audio_view; rewrite Hl;
    unfold mbind at 1, M_bind at 1; rewrite transcribe_spec; cbv zeta; rewrite Hasr.
  - done.
  - simpl. by rewrite lookup_insert_eq.
Qed.

(** ** Insertion-ordered dictionaries: lookups after updates *)

Section PyDictFacts.
Context {V : Type}.
Implicit Types (d : list (string * V)) (k : string) (v : V).

Lemma get_set_eq k v d : PyDict.get k (PyDict.set k v d) = Some v.
Proof.
  induction d as [|[k' v'] d IH]; simpl.
  - by rewrite decide_True.
  - destruct (decide (k' = k)) as [->|Hne]; simpl.
    + by rewrite decide_True.
    + by rewrite decide_False.
Qed.

Lemma get_set_ne k k' v d : k ≠ k' → PyDict.get k' (PyDict.set k v d) = PyDict.get k' d.
Proof.
  intros Hne. induction d as [|[k0 v0] d IH]; simpl.
  - by rewrite decide_False.
  - destruct (decide (k0 = k)) as [->|Hne0]; simpl.
    + by rewrite !decide_False.
    + by rewrite IH.
Qed.

Lemma get_None_keys k d : PyDict.get k d = None ↔ k ∉ d.*1.
Proof.
  induction d as [|[k' v'] d IH]; simpl.
  - split; [intros _; apply not_elem_of_nil|done].
  - rewrite not_elem_of_cons. destruct (decide (k' = k)) as [->|Hne].
    + split; [done|]. by intros [? _].
    + rewrite IH. split; [by intros ?|by intros [_ ?]].
Qed.

Lemma get_Some_elem_of k v d : PyDict.get k d = Some v → (k, v) ∈ d.
Proof.
  induction d as [|[k' v'] d IH]; simpl; [done|].
  destruct (decide (k' = k)) as [->|Hne].
  - intros [= ->]. apply elem_of_cons. by left.
  - intros Hget. apply elem_of_cons. right. by apply IH.
Qed.

Lemma elem_of_get k v d : NoDup d.*1 → (k, v) ∈ d → PyDict.get k d = Some v.
Proof.
  induction d as [|[k' v'] d IH]; simpl; intros Hnd Hin.
  - by apply elem_of_nil in Hin.
  - apply NoDup_cons in Hnd as [Hk' Hnd]. apply elem_of_cons in Hin as [[= <- <-]|Hin].
    + by rewrite decide_True.
    + rewrite decide_False; [by apply IH|].
      intros ->. apply Hk'. apply list_elem_of_fmap. by exists (k, v).
Qed.

Lemma keys_del_subseteq k d : (PyDict.del k d).*1 ⊆ d.*1.
Proof.
  induction d as [|[k' v'] d IH]; simpl; [done|].
  destruct (decide (k' = k)); simpl.
  - intros x Hx. apply elem_of_cons. by right.
  - intros x. rewrite !elem_of_cons. intros [?|?]; auto.
Qed.

Lemma NoDup_del k d : NoDup d.*1 → NoDup (PyDict.del k d).*1.
Proof.
  induction d as [|[k' v'] d IH]; simpl; [done|].
  rewrite NoDup_cons. intros [Hk' Hnd].
  destruct (decide (k' = k)); simpl; [done|].
  apply NoDup_cons. split; [|by apply IH].
  intros Hin. by apply Hk', (keys_del_subseteq k d).
Qed.

Lemma get_del_eq k d : NoDup d.*1 → PyDict.get k (PyDict.del k d) = None.
Proof.
  induction d as [|[k' v'] d IH]; simpl; [done|].
  rewrite NoDup_cons. intros [Hk' Hnd].
  destruct (decide (k' = k)) as [->|Hne]; simpl.
  - by apply get_None_keys.
  - rewrite decide_False by done. by apply IH.
Qed.

Lemma get_del_ne k k' d : k ≠ k' → PyDict.get k' (PyDict.del k d) = PyDict.get k' d.
Proof.
  intros Hne. induction d as [|[k0 v0] d IH]; simpl; [done|].
  destruct (decide (k0 = k)) as [->|Hne0]; simpl.
  - by rewrite decide_False.
  - by rewrite IH.
Qed.


Lemma elem_of_del k k' v d : (k', v) ∈ PyDict.del k d → (k', v) ∈ d.
Proof.
  induction d as [|[k0 v0] d IH]; simpl; [done|].
  destruct (decide (k0 = k)); rewrite !elem_of_cons; [auto|].
  intros [?|?]; auto.
Qed.

Lemma elem_of_keys_set k v x d : x ∈ (PyDict.set k v d).*1 → x = k ∨ x ∈ d.*1.
Proof.
  induction d as [|[k' v'] d IH]; simpl.
  - rewrite list_elem_of_singleton. by left.
  - destruct (decide (k' = k)) as [->|Hne]; simpl; rewrite !elem_of_cons.
    + intros [->|?]; auto.
    + intros [->|Hx]; [auto|]. destruct (IH Hx); auto.
Qed.

Lemma NoDup_set k v d : NoDup d.*1 → NoDup (PyDict.set k v d).*1.
Proof.
  induction d as [|[k' v'] d IH]; simpl.
  - intros _. apply NoDup_singleton.
  - rewrite NoDup_cons. intros [Hk' Hnd].
    destruct (decide (k' = k)) as [->|Hne]; simpl.
    + by apply NoDup_cons.
    + apply NoDup_cons. split; [|by apply IH].
      intros Hin. by destruct (elem_of_keys_set _ _ _ _ Hin) as [->|?].
Qed.

Lemma elem_of_set k v k' v' d :
  (k', v') ∈ PyDict.set k v d → (k', v') = (k, v) ∨ (k', v') ∈ d.
Proof.
  induction d as [|[k0 v0] d IH]; simpl.
  - rewrite list_elem_of_singleton. by left.
  - destruct (decide (k0 = k)); rewrite !elem_of_cons.
    + intros [?|?]; auto.
    + intros [?|Hin]; [auto|]. destruct (IH Hin); auto.
Qed.
End PyDictFacts.

Lemma temp_path_inj k k' : temp_path k = temp_path k' → k = k'.
Proof. unfold temp_path. intros H. by simplify_eq/=. Qed.

(** ** One reaper cycle *)

Lemma cleanup_entry_spec env now k info s :
  is_Some (PyDict.get k (audio_file_store s)) →
  cleanup_entry env now (k, info) s =
  (Returned (),
   if expired now info then
     match files s !! path info, unlink_error env (path info) with
     | Some _, Some e =>
         with_log (log s ++ [log_error ("Error cleaning up file " +:+ k +:+ ": " +:+ e)]) s
     | _, _ =>
         with_log (log s ++ [log_debug ("Cleaned up old audio file: " +:+ k)])
           (with_audio_file_store (PyDict.del k (audio_file_store s))
              (with_files (delete (path info) (files s)) s))
     end
   else s).
Proof.
  intros [info' Hk]. unfold cleanup_entry. simpl.
  destruct (expired now info); [|reflexivity].
  unfold os_path_exists, os_unlink, del_audio. run_monad.
  destruct (files s !! path info) as [data|] eqn:Hfile; simpl.
  - rewrite Hfile. destruct (unlink_error env (path info)) as [e|]; simpl; [done|].
    by rewrite Hk.
  - rewrite Hk. simpl. rewrite (delete_id _ _ Hfile). by destruct s.
Qed.

Section Cycle.
Context (env : Env).
Let now : Q := clock env.

Lemma for_each_cons {A} (f : A → M unit) x l s :
  (f x s).1 = Returned () → for_each f (x :: l) s = for_each f l (f x s).2.
Proof.
  intros Hret. simpl. unfold mbind, M_bind.
  destruct (f x s) as [[[]|e] s1]; simpl in *; [done|discriminate].
Qed.

(** *** What one iteration does *)

Section Iteration.
Context (k : string) (info : AudioInfo) (s : State).
Context (Hget : PyDict.get k (audio_file_store s) = Some info).
Context (Hstore : NoDup (audio_file_store s).*1).
Let s1 : State := (cleanup_entry env now (k, info) s).2.

Lemma cleanup_entry_returns : (cleanup_entry env now (k, info) s).1 = Returned ().
Proof using Hget. by rewrite cleanup_entry_spec by eauto. Qed.

Lemma cleanup_entry_other_name k' :
  k ≠ k' → PyDict.get k' (audio_file_store s1) = PyDict.get k' (audio_file_store s).
Proof using Hget.
  intros Hne. unfold s1. rewrite cleanup_entry_spec by eauto. simpl.
  destruct (expired now info); [|done].
  destruct (files s !! path info); [destruct (unlink_error env (path info))|];
    simpl; by rewrite ?get_del_ne.
Qed.

Lemma cleanup_entry_other_file p :
  path info ≠ p → files s1 !! p = files s !! p.
Proof using Hget.
  intros Hne. unfold s1. rewrite cleanup_entry_spec by eauto. simpl.
  destruct (expired now info); [|done].
  destruct (files s !! path info); [destruct (unlink_error env (path info))|];
    simpl; by rewrite ?lookup_delete_ne.
Qed.

Lemma cleanup_entry_NoDup : NoDup (audio_file_store s1).*1.
Proof using Hget Hstore.
  unfold s1. rewrite cleanup_entry_spec by eauto. simpl.
  destruct (expired now info); [|done].
  destruct (files s !! path info); [destruct (unlink_error env (path info))|];
    simpl; by try apply NoDup_del.
Qed.

Lemma cleanup_entry_own :
  PyDict.get k (audio_file_store s1) = (if removes env s info then None else Some info) ∧
  files s1 !! path info = (if removes env s info then None else files s !! path info).
Proof using Hget Hstore.
  unfold s1. rewrite cleanup_entry_spec by eauto. simpl.
  unfold removes, unlink_refused. fold now.
  destruct (expired now info); simpl; [|done].
  destruct (files s !! path info) as [data|] eqn:Hfile; simpl.
  - destruct (unlink_error env (path info)) as [e|]; simpl; [done|].
    by rewrite get_del_eq, lookup_delete_eq.
  - by rewrite get_del_eq, lookup_delete_eq.
Qed.

End Iteration.

(** *** The loop over the snapshot *)

Lemma snapshot_of_head k info items s :
  snapshot_of ((k, info) :: items) s →
  PyDict.get k (audio_file_store s) = Some info ∧ path info = temp_path k ∧
  (k ∉ items.*1) ∧ NoDup (audio_file_store s).*1.
Proof.
  intros (Hnd & Hstore & Hitems). rewrite fmap_cons in Hnd.
  apply NoDup_cons in Hnd as [Hk Hnd].
  destruct (Hitems k info) as [Hget Hpath]; [apply elem_of_cons; by left|]. done.
Qed.

Lemma snapshot_of_names k items s :
  snapshot_of items s → k ∈ items.*1 →
  ∃ info, (k, info) ∈ items ∧ path info = temp_path k.
Proof.
  intros (_ & _ & Hitems) Hk. apply list_elem_of_fmap in Hk as ([k' info] & -> & Hin).
  exists info. split; [done|]. by apply Hitems.
Qed.

Lemma snapshot_of_tail k info items s :
  snapshot_of ((k, info) :: items) s →
  snapshot_of items (cleanup_entry env now (k, info) s).2.
Proof.
  intros Hsnap. destruct (snapshot_of_head _ _ _ _ Hsnap) as (Hget & Hpath & Hk & Hstore).
  destruct Hsnap as (Hnd & _ & Hitems). rewrite fmap_cons in Hnd.
  apply NoDup_cons in Hnd as [_ Hnd].
  split; [done|]. split; [by apply cleanup_entry_NoDup|].
  intros k' info' Hin.
  rewrite cleanup_entry_other_name; [apply Hitems, elem_of_cons; by right|done|].
  intros ->. apply Hk, list_elem_of_fmap. by exists (k', info').
Qed.

(** Files of the rest of the snapshot are not touched by one iteration. *)
Lemma snapshot_of_tail_files k info items s k' info' :
  snapshot_of ((k, info) :: items) s → (k', info') ∈ items →
  files (cleanup_entry env now (k, info) s).2 !! path info' = files s !! path info'.
Proof.
  intros Hsnap Hin. destruct (snapshot_of_head _ _ _ _ Hsnap) as (Hget & Hpath & Hk & _).
  destruct Hsnap as (_ & _ & Hitems).
  destruct (Hitems k' info') as [_ Hpath']; [apply elem_of_cons; by right|].
  apply cleanup_entry_other_file; [done|].
  rewrite Hpath, Hpath'. intros Heq. apply temp_path_inj in Heq. subst k'.
  apply Hk, list_elem_of_fmap. by exists (k, info').
Qed.

Lemma for_each_cleanup_returns items : ∀ s,
  snapshot_of items s → (for_each (cleanup_entry env now) items s).1 = Returned ().
Proof.
  induction items as [|[k info] items IH]; intros s Hsnap; [done|].
  destruct (snapshot_of_head _ _ _ _ Hsnap) as (Hget & _).
  rewrite for_each_cons by by apply cleanup_entry_returns.
  by apply IH, snapshot_of_tail.
Qed.

(** Names outside the snapshot, and files of no snapshot name, are left alone. *)
Lemma for_each_cleanup_frame items : ∀ s,
  snapshot_of items s →
  (∀ k, k ∉ items.*1 →
     PyDict.get k (audio_file_store (for_each (cleanup_entry env now) items s).2)
       = PyDict.get k (audio_file_store s)) ∧
  (∀ p, (∀ k, k ∈ items.*1 → p ≠ temp_path k) →
     files (for_each (cleanup_entry env now) items s).2 !! p = files s !! p).
Proof.
  induction items as [|[k info] items IH]; intros s Hsnap; [done|].
  destruct (snapshot_of_head _ _ _ _ Hsnap) as (Hget & Hpath & Hk & _).
  rewrite for_each_cons by by apply cleanup_entry_returns.
  destruct (IH _ (snapshot_of_tail _ _ _ _ Hsnap)) as [IHstore IHfiles].
  rewrite fmap_cons. split.
  - intros k' Hk'. apply not_elem_of_cons in Hk' as [Hne Hk'].
    rewrite IHstore by done. by apply cleanup_entry_other_name.
  - intros p Hp.
    rewrite IHfiles by (intros k' Hk'; apply Hp, elem_of_cons; by right).
    apply cleanup_entry_other_file; [done|].
    rewrite Hpath. intros <-. apply (Hp k); [apply elem_of_cons; by left|done].
Qed.

(** Every name of the snapshot is either taken out, entry and file
    together, or left as it was, entry and file together. *)
Lemma for_each_cleanup_entry items : ∀ s k info,
  snapshot_of items s → (k, info) ∈ items →
  PyDict.get k (audio_file_store (for_each (cleanup_entry env now) items s).2)
    = (if removes env s info then None else Some info) ∧
  files (for_each (cleanup_entry env now) items s).2 !! path info
    = (if removes env s info then None else files s !! path info).
Proof.
  induction items as [|[k0 info0] items IH]; intros s k info Hsnap Hin.
  { by apply elem_of_nil in Hin. }
  destruct (snapshot_of_head _ _ _ _ Hsnap) as (Hget0 & Hpath0 & Hk0 & Hstore).
  pose proof (snapshot_of_tail _ _ _ _ Hsnap) as Htail.
  rewrite for_each_cons by by apply cleanup_entry_returns.
  apply elem_of_cons in Hin as [[= -> ->]|Hin].
  - destruct (for_each_cleanup_frame items _ Htail) as [Hfs Hff].
    rewrite Hfs by done. rewrite Hff; [by apply cleanup_entry_own|].
    intros k' Hk' Heq. rewrite Hpath0 in Heq. apply temp_path_inj in Heq. by subst.
  - destruct (IH _ k info Htail Hin) as [IHs IHf].
    pose proof (snapshot_of_tail_files _ _ _ _ _ _ Hsnap Hin) as Hfile.
    assert (removes env (cleanup_entry env now (k0, info0) s).2 info = removes env s info)
      as Hsame.
    { unfold removes, unlink_refused. by rewrite Hfile. }
    rewrite IHs, IHf, Hsame, Hfile. done.
Qed.

End Cycle.

Lemma wf_snapshot_of s :
  audio_store_wf (audio_file_store s) → snapshot_of (audio_file_store s) s.
Proof.
  intros [Hnd Hpaths]. split; [done|]. split; [done|].
  intros k info Hin. split; [by apply elem_of_get|by apply Hpaths].
Qed.

Lemma cleanup_cycle_for_each env s :
  audio_store_wf (audio_file_store s) →
  cleanup_cycle env s =
    (Returned (), (for_each (cleanup_entry env (clock env)) (audio_file_store s) s).2).
Proof.
  intros Hwf. unfold cleanup_cycle. run_monad.
  pose proof (for_each_cleanup_returns env _ _ (wf_snapshot_of s Hwf)) as Hret.
  destruct (for_each (cleanup_entry env (clock env)) (audio_file_store s) s)
    as [[[]|e] s']; simpl in *; [done|discriminate].
Qed.

Lemma cleanup_cycle_entry env s filename info :
  audio_store_wf (audio_file_store s) →
  PyDict.get filename (audio_file_store s) = Some info →
  PyDict.get filename (audio_file_store (cleanup_cycle env s).2)
    = (if removes env s info then None else Some info) ∧
  files (cleanup_cycle env s).2 !! path info
    = (if removes env s info then None else files s !! path info).
Proof.
  intros Hwf Hget. rewrite cleanup_cycle_for_each by done. simpl.
  apply for_each_cleanup_entry; [by apply wf_snapshot_of|by apply get_Some_elem_of].
Qed.

Lemma cleanup_cycle_absent env s filename :
  audio_store_wf (audio_file_store s) →
  PyDict.get filename (audio_file_store s) = None →
  PyDict.get filename (audio_file_store (cleanup_cycle env s).2) = None.
Proof.
  intros Hwf Hget. rewrite cleanup_cycle_for_each by done. simpl.
  destruct (for_each_cleanup_frame env _ _ (wf_snapshot_of s Hwf)) as [Hframe _].
  rewrite Hframe; [done|]. by apply get_None_keys.
Qed.

Lemma expired_spec now info :
  expired now info = true ↔ (Config.AUDIO_RETENTION_SECONDS < now - timestamp info)%Q.
Proof.
  unfold expired. destruct (Qlt_le_dec _ _) as [Hlt|Hle]; [done|].
  split; [done|]. intros Hlt. by apply Qle_not_lt in Hle.
Qed.



(** ** An artifact from synthesis to expiry *)

Lemma audio_store_wf_set filename t d :
  audio_store_wf d →
  audio_store_wf
    (PyDict.set filename {| path := temp_path filename; timestamp := t; type := "audio/wav" |} d).
Proof.
  intros [Hnd Hpaths]. split; [by apply NoDup_set|].
  intros k info Hin. apply elem_of_set in Hin as [[= -> ->]|Hin]; [done|by apply Hpaths].
Qed.

Lemma text_to_speech_success env text s speech row rows :
  models_loaded s = true →
  text ≠ "" →
  narrator env text = Returned speech →
  audio speech = row :: rows →
  let filename := uuid_audio env +:+ ".wav" in
  text_to_speech env text s =
    (ok (audio_url_json ("/api/audio/" +:+ filename)),
     with_audio_file_store
       (PyDict.set filename
          {| path := temp_path filename; timestamp := clock env; type := "audio/wav" |}
          (audio_file_store s))
       (with_files (<[temp_path filename := wav_file (sampling_rate speech) row]> (files s))
          (with_engine_calls (engine_calls s ++ [call_narrator text]) s))).
Proof.
  intros Hl Htext Htts Haudio. cbv zeta.
  unfold text_to_speech, ensure_models_loaded, api_response, text_to_speech_view.
  rewrite Hl. case_decide; [done|].
  unfold mbind at 1, M_bind at 1. rewrite synthesize_spec. cbv zeta.
  by rewrite Htts, Haudio.
Qed.

(** C5, as stated, fails.  An artifact is created at time 1000 and a
    sweep runs at time 4601, past the retention window of 3600 seconds,
    but the removal of its file is refused: the artifact is still served
    afterwards. *)
Lemma expired_artifact_still_served :
  (Config.AUDIO_RETENTION_SECONDS < clock Sample.refusing - clock Sample.env)%Q ∧
  ¬ not_found
      (get_audio "6f1e2d3c.wav"
         (cleanup_cycle Sample.refusing
            (text_to_speech Sample.env "hi" Sample.ready).2).2).1.
Proof.
  split; [by vm_compute|].
  unfold not_found. intros H. vm_compute in H. discriminate H.
Qed.

(** C5, amended. An artifact put by [text_to_speech] at time [T] can be
    fetched back with the sample rate and samples that were stored, under
    MIME type audio/wav: right away, and also after a sweep at a time
    [now] with [now - T <= 3600].  After a sweep with [now - T > 3600] in
    which the removal of the artifact's file is not refused, fetching it
    answers 404. *)
Theorem artifact_round_trip (env sweep : Env) (text : string) (s : State)
    (speech : Speech) (row : list Q) (rows : list (list Q)) :
  models_loaded s = true →
  text ≠ "" →
  audio_store_wf (audio_file_store s) →
  narrator env text = Returned speech →
  audio speech = row :: rows →
  let filename := uuid_audio env +:+ ".wav" in
  let put := text_to_speech env text s in
  let swept := (cleanup_cycle sweep put.2).2 in
  let original :=
    ok (send_file (wav_file (sampling_rate speech) row) "audio/wav" filename) in
  put.1 = ok (audio_url_json ("/api/audio/" +:+ filename)) ∧
  (get_audio filename put.2).1 = original ∧
  ((clock sweep - clock env <= Config.AUDIO_RETENTION_SECONDS)%Q →
     (get_audio filename swept).1 = original) ∧
  ((Config.AUDIO_RETENTION_SECONDS < clock sweep - clock env)%Q →
     unlink_error sweep (temp_path filename) = None →
     (get_audio filename swept).1 = failed 404 "Audio file not found").
Proof.
  intros Hl Htext Hwf Htts Haudio. cbv zeta.
  rewrite (text_to_speech_success env text s speech row rows) by done. cbv zeta.
  set (filename := uuid_audio env +:+ ".wav").
  set (info := {| path := temp_path filename; timestamp := clock env; type := "audio/wav" |}).
  set (s1 := with_audio_file_store _ _).
  assert (audio_store_wf (audio_file_store s1)) as Hwf1
    by by apply audio_store_wf_set.
  assert (PyDict.get filename (audio_file_store s1) = Some info) as Hget
    by apply get_set_eq.
  assert (files s1 !! path info = Some (wav_file (sampling_rate speech) row)) as Hfile
    by apply lookup_insert_eq.
  destruct (cleanup_cycle_entry sweep s1 filename info Hwf1 Hget) as [Hstore' Hfiles'].
  simpl. split_and!.
  - done.
  - by rewrite get_audio_spec, Hget, Hfile.
  - intros Hyoung.
    assert (removes sweep s1 info = false) as Hkeep.
    { unfold removes. apply andb_false_iff. left.
      apply not_true_is_false. rewrite expired_spec. simpl. by apply Qle_not_lt. }
    rewrite Hkeep in Hstore', Hfiles'.
    by rewrite get_audio_spec, Hstore', Hfiles', Hfile.
  - intros Hold Hunlink.
    assert (removes sweep s1 info = true) as Htake.
    { unfold removes, unlink_refused. simpl. rewrite Hunlink.
      rewrite (proj2 (expired_spec _ _)) by done.
      by rewrite andb_false_r. }
    rewrite Htake in Hstore'.
    by rewrite get_audio_spec, Hstore'.
Qed.

(** ** The artifact store stays well-formed *)

Lemma preserves_keeps {A B} (proj : State → B) (P : B → Prop) (m : M A) :
  keeps proj m → preserves (λ s, P (proj s)) m.
Proof. intros Hk s. by rewrite Hk. Qed.

Lemma preserves_ret {A} (P : State → Prop) (a : A) : preserves P (mret a).
Proof. by intros s Hs. Qed.

Lemma preserves_bind {A C} (P : State → Prop) (m : M A) (f : A → M C) :
  preserves P m → (∀ a, preserves P (f a)) → preserves P (m ≫= f).
Proof.
  intros Hm Hf s Hs. unfold mbind, M_bind.
  specialize (Hm s Hs). destruct (m s) as [[a|e] s']; simpl in *; [|done].
  by apply Hf.
Qed.

Lemma dialog_turn_keeps_audio env msg cid :
  keeps audio_file_store (dialog_turn env msg cid).
Proof.
  intros s. rewrite dialog_turn_spec. cbv zeta. by destruct (chatbot env _).
Qed.

Lemma transcribe_keeps_audio env data : keeps audio_file_store (transcribe env data).
Proof.
  intros s. rewrite transcribe_spec. cbv zeta.
  destruct (asr env data); [|done]. by destruct (unlink_error env _).
Qed.

Lemma synthesize_preserves_wf env text : preserves audio_wf (synthesize env text).
Proof.
  intros s Hwf. rewrite synthesize_spec. cbv zeta.
  destruct (narrator env text) as [result|]; [|done].
  destruct (audio result); [done|]. by apply audio_store_wf_set.
Qed.

Lemma api_response_preserves_wf name (func : M Response) s :
  preserves audio_wf func → audio_wf s → audio_wf (api_response name func s).2.
Proof.
  intros Hf Hs. unfold api_response. specialize (Hf s Hs).
  by destruct (func s) as [[r|e] s'].
Qed.

Lemma ensure_models_loaded_preserves_wf (f : Handler) s :
  (audio_wf s → audio_wf (f s).2) → audio_wf s → audio_wf (ensure_models_loaded f s).2.
Proof. unfold ensure_models_loaded. destruct (models_loaded s); auto. Qed.

Lemma dispatch_preserves_wf env req s : audio_wf s → audio_wf (dispatch env req s).2.
Proof.
  destruct req as [|msg cid|file|text|file cid|filename|text|cid|cid]; simpl.
  - done.
  - apply ensure_models_loaded_preserves_wf, api_response_preserves_wf.
    apply (preserves_keeps audio_file_store audio_store_wf).
    unfold chat_view. case_decide; [done|].
    apply keeps_bind; [apply dialog_turn_keeps_audio|done].
  - apply ensure_models_loaded_preserves_wf, api_response_preserves_wf.
    apply (preserves_keeps audio_file_store audio_store_wf).
    destruct file as [data|]; [|done].
    apply keeps_bind; [apply transcribe_keeps_audio|done].
  - apply ensure_models_loaded_preserves_wf, api_response_preserves_wf.
    unfold text_to_speech_view. case_decide; [apply preserves_ret|].
    apply preserves_bind; [apply synthesize_preserves_wf|].
    intros filename. apply preserves_ret.
  - apply ensure_models_loaded_preserves_wf, api_response_preserves_wf.
    destruct file as [data|]; [|apply preserves_ret]. simpl.
    apply preserves_bind;
      [apply (preserves_keeps audio_file_store audio_store_wf), transcribe_keeps_audio|].
    intros user_message. apply preserves_bind;
      [apply (preserves_keeps audio_file_store audio_store_wf), dialog_turn_keeps_audio|].
    intros r. apply preserves_bind; [apply synthesize_preserves_wf|].
    intros filename. apply preserves_ret.
  - apply api_response_preserves_wf.
    intros s' Hs'. unfold get_audio_view.
    destruct (PyDict.get _ _); [|done]. by destruct (files s' !! _).
  - apply ensure_models_loaded_preserves_wf, api_response_preserves_wf.
    unfold language_feedback_view. case_decide; apply preserves_ret.
  - apply api_response_preserves_wf.
    intros s' Hs'. unfold get_conversation_history_view.
    by destruct (conversation_store s' !! cid).
  - apply api_response_preserves_wf.
    intros s' Hs'. unfold delete_conversation_view. run_monad.
    by destruct (bool_decide _).
Qed.

Lemma for_each_cleanup_snapshot env items : ∀ s,
  snapshot_of items s →
  NoDup (audio_file_store (for_each (cleanup_entry env (clock env)) items s).2).*1.
Proof.
  induction items as [|[k info] items IH]; intros s Hsnap.
  - by destruct Hsnap as (_ & Hnd & _).
  - destruct (snapshot_of_head _ _ _ _ Hsnap) as (Hget & _).
    rewrite for_each_cons by by apply cleanup_entry_returns.
    by apply IH, snapshot_of_tail.
Qed.

Lemma cleanup_cycle_preserves_wf env s : audio_wf s → audio_wf (cleanup_cycle env s).2.
Proof.
  intros Hwf. pose proof Hwf as [Hnd Hpaths].
  assert (NoDup (audio_file_store (cleanup_cycle env s).2).*1) as Hnd'.
  { rewrite cleanup_cycle_for_each by done.
    by apply for_each_cleanup_snapshot, wf_snapshot_of. }
  split; [done|].
  intros k info Hin. apply elem_of_get in Hin; [|done].
  destruct (PyDict.get k (audio_file_store s)) as [info0|] eqn:Hget.
  - destruct (cleanup_cycle_entry env s k info0 Hwf Hget) as [Hstore _].
    rewrite Hin in Hstore. destruct (removes env s info0); [done|].
    injection Hstore as ->. by apply Hpaths, get_Some_elem_of.
  - by rewrite (cleanup_cycle_absent env s k Hwf Hget) in Hin.
Qed.

Lemma step_preserves_wf ev s : audio_wf s → audio_wf (step ev s).
Proof.
  destruct ev as [env req|failure|env|p]; simpl.
  - apply dispatch_preserves_wf.
  - by destruct failure.
  - apply cleanup_cycle_preserves_wf.
  - done.
Qed.

(** Whatever has happened since start-up, [audio_file_store] is well-formed. *)
Lemma reachable_audio_wf evs : audio_wf (run evs initial_state).
Proof.
  assert (∀ s, audio_wf s → audio_wf (run evs s)) as Hrun.
  { induction evs as [|ev evs IH]; intros s Hs; [done|].
    simpl. by apply IH, step_preserves_wf. }
  apply Hrun. split; [apply NoDup_nil_2|]. intros k info Hin. by apply elem_of_nil in Hin.
Qed.

(** * Further properties of the handlers *)

(** ** Validation *)

(** X1. With the models loaded, a request that fails its handler's guard
    (empty message, empty text, missing audio part) is answered 400 with
    the guard's message, and the state is left exactly as it was: no
    session is created, no pipeline is invoked, nothing is written. *)
Theorem invalid_request_rejected (env : Env) (req : Request) (s : State) (msg : string) :
  models_loaded s = true →
  invalid req = Some msg →
  dispatch env req s = (failed 400 msg, s).
Proof.
  intros Hl Hinv.
  destruct req as [|m cid|file|text|file cid|filename|text|cid|cid]; simpl in *;
    try discriminate;
    unfold chat, speech_to_text, text_to_speech, conversation_with_audio,
      language_feedback, ensure_models_loaded, api_response; rewrite Hl.
  - destruct m; [|discriminate]. by injection Hinv as <-.
  - destruct file; [discriminate|]. by injection Hinv as <-.
  - destruct text; [|discriminate]. by injection Hinv as <-.
  - destruct file; [discriminate|]. by injection Hinv as <-.
  - destruct text; [|discriminate]. by injection Hinv as <-.
Qed.

Lemma invalid_request_rejected_witness :
  dispatch Sample.env (POST_chat "" "abc") Sample.ready
    = (failed 400 "No message provided", Sample.ready) ∧
  dispatch Sample.env (POST_conversation_with_audio None "abc") Sample.ready
    = (failed 400 "No audio file provided", Sample.ready).
Proof.
  split.
  - apply invalid_request_rejected; reflexivity.
  - apply invalid_request_rejected; reflexivity.
Defined.

(** ** Endpoints that only look *)

(** X2. The status probe, the audio download, the conversation read and
    the language-feedback placeholder never change the state, whatever
    they answer (200, 400, 404 or 503): stores, files, engine trace and
    log are the same afterwards. *)
Theorem read_only_request_keeps_state (env : Env) (req : Request) (s : State) :
  read_only req = true → (dispatch env req s).2 = s.
Proof.
  intros Hro.
  destruct req as [|m cid|file|text|file cid|filename|text|cid|cid]; simpl in *;
    try discriminate.
  - done.
  - by rewrite get_audio_spec.
  - unfold language_feedback, ensure_models_loaded, api_response, language_feedback_view.
    destruct (models_loaded s); [|done]. by case_decide.
  - unfold get_conversation_history, api_response, get_conversation_history_view.
    by destruct (conversation_store s !! cid).
Qed.

Lemma read_only_request_keeps_state_witness :
  (dispatch Sample.env (GET_conversation "abc") Sample.stale).2 = Sample.stale ∧
  (dispatch Sample.env (POST_language_feedback "I has a cat") Sample.stale).2 = Sample.stale.
Proof.
  split.
  - apply read_only_request_keeps_state. reflexivity.
  - apply read_only_request_keeps_state. reflexivity.
Defined.

(** ** Deleting a conversation *)

(** X3. [delete_conversation] always answers 200 with success, for a
    known and for an unknown id alike.  Afterwards a read of that id
    answers 404, every other session is what it was, and the artifact
    store, the files and the engine trace are untouched. *)
Theorem delete_conversation_forgets (cid : string) (s : State) :
  (delete_conversation cid s).1 = ok (deleted_json true "Conversation deleted") ∧
  (get_conversation_history cid (delete_conversation cid s).2).1
    = failed 404 "Conversation not found" ∧
  (∀ other, other ≠ cid →
     conversation_store (delete_conversation cid s).2 !! other
       = conversation_store s !! other) ∧
  audio_file_store (delete_conversation cid s).2 = audio_file_store s ∧
  files (delete_conversation cid s).2 = files s ∧
  engine_calls (delete_conversation cid s).2 = engine_calls s.
Proof.
  unfold delete_conversation, get_conversation_history, api_response,
    delete_conversation_view, get_conversation_history_view. run_monad.
  destruct (conversation_store s !! cid) as [h|] eqn:Hcid; simpl.
  - rewrite lookup_delete_eq.
    split_and!; try done. intros other Hne. by rewrite lookup_delete_ne.
  - rewrite Hcid.
    split_and!; done.
Qed.

Lemma delete_conversation_forgets_witness :
  (get_conversation_history "abc"
     (delete_conversation "abc" (chat Sample.env "hi" "abc" Sample.ready).2).2).1
    = failed 404 "Conversation not found".
Proof.
  exact (proj1 (proj2 (delete_conversation_forgets "abc"
                         (chat Sample.env "hi" "abc" Sample.ready).2))).
Defined.

(** ** A dialog turn and the other sessions *)

Lemma dialog_turn_other_sessions env msg cid s other :
  other ≠ resolved_id env cid →
  conversation_store (dialog_turn env msg cid s).2 !! other = conversation_store s !! other.
Proof.
  intros Hne. rewrite dialog_turn_spec. cbv zeta.
  assert (resolved_store env cid (conversation_store s) !! other
          = conversation_store s !! other) as Hres.
  { unfold resolved_store, resolved_id in *. case_decide.
    - by rewrite lookup_insert_ne.
    - destruct (conversation_store s !! cid); [done|]. by rewrite lookup_insert_ne. }
  destruct (chatbot env _); simpl; [|done]. by rewrite lookup_insert_ne.
Qed.

Lemma conversation_with_audio_unfold env data cid s :
  models_loaded s = true →
  conversation_with_audio env (Some data) cid s =
  let oops e s' :=
    (failed 500 e,
     with_log (log s' ++ [log_error ("Error in conversation_with_audio: " +:+ e)]) s') in
  match transcribe env data s with
  | (Raised e, s1) => oops e s1
  | (Returned user_message, s1) =>
      match dialog_turn env user_message cid s1 with
      | (Raised e, s2) => oops e s2
      | (Returned r, s2) =>
          match synthesize env r.1 s2 with
          | (Raised e, s3) => oops e s3
          | (Returned filename, s3) =>
              (ok (conversation_audio_json user_message r.1 r.2
                     ("/api/audio/" +:+ filename)), s3)
          end
      end
  end.
Proof.
  intros Hl. unfold conversation_with_audio, ensure_models_loaded, api_response,
    conversation_with_audio_view. rewrite Hl. cbv zeta.
  unfold mbind, M_bind, mret, M_ret.
  destruct (transcribe env data s) as [[user_message|e] s1]; [|done].
  destruct (dialog_turn env user_message cid s1) as [[r|e] s2]; [|done].
  by destruct (synthesize env r.1 s2) as [[filename|e] s3].
Qed.

(** X4. A dialog request touches one session only: after [chat] or
    [conversation_with_audio], however it ends, every session other than
    the one the request resolves to (the supplied id, or the drawn uuid
    when none was supplied) is what it was before. *)
Theorem dialog_request_touches_one_session (env : Env) (msg cid other : string)
    (file : option (list byte)) (s : State) :
  other ≠ (if decide (cid = "") then uuid_conversation env else cid) →
  conversation_store (chat env msg cid s).2 !! other = conversation_store s !! other ∧
  conversation_store (conversation_with_audio env file cid s).2 !! other
    = conversation_store s !! other.
Proof.
  intros Hne. change (other ≠ resolved_id env cid) in Hne. split.
  - rewrite chat_spec. destruct (models_loaded s); [|done]. case_decide; [done|].
    pose proof (dialog_turn_other_sessions env msg cid s other Hne) as Hd.
    by destruct (dialog_turn env msg cid s) as [[r|e] s'].
  - destruct (models_loaded s) eqn:Hl;
      [|by unfold conversation_with_audio, ensure_models_loaded; rewrite Hl].
    destruct file as [data|];
      [|by unfold conversation_with_audio, ensure_models_loaded, api_response; rewrite Hl].
    rewrite conversation_with_audio_unfold by done. cbv zeta.
    pose proof (transcribe_keeps_conversations env data s) as Ht.
    destruct (transcribe env data s) as [[user_message|e] s1]; simpl in Ht;
      [|by rewrite <- Ht].
    pose proof (dialog_turn_other_sessions env user_message cid s1 other Hne) as Hd.
    destruct (dialog_turn env user_message cid s1) as [[r|e] s2]; simpl in Hd;
      [|simpl; by rewrite Hd, Ht].
    pose proof (synthesize_keeps_conversations env r.1 s2) as Hs.
    destruct (synthesize env r.1 s2) as [[filename|e] s3]; simpl in *;
      by rewrite Hs, Hd, Ht.
Qed.

Lemma dialog_request_touches_one_session_witness :
  conversation_store
    (chat Sample.env "bye" "xyz" (chat Sample.env "hi" "abc" Sample.ready).2).2 !! "abc"
  = Some [user_turn "hi"; assistant_turn "hello"].
Proof.
  rewrite (proj1 (dialog_request_touches_one_session Sample.env "bye" "xyz" "abc" None
                    (chat Sample.env "hi" "abc" Sample.ready).2 ltac:(discriminate))).
  vm_compute. reflexivity.
Defined.

(** ** A dialog turn whose engine call fails *)

(** X5. When the dialog pipeline raises, [chat] answers 500 with the
    exception text and appends nothing: a session that existed keeps its
    history unchanged (no stray user turn), and an identifier that was
    unknown is left behind as an empty session, so that a read of it
    answers 200 with no messages rather than 404. *)
Theorem failed_dialog_appends_nothing (env : Env) (msg cid e : string) (s : State) :
  models_loaded s = true →
  msg ≠ "" →
  cid ≠ "" →
  chatbot env {| new_user_input := msg;
                 calls := replay (default [] (conversation_store s !! cid)) |}
    = Raised e →
  (chat env msg cid s).1 = failed 500 e ∧
  conversation_store (chat env msg cid s).2 !! cid
    = Some (default [] (conversation_store s !! cid)) ∧
  (get_conversation_history cid (chat env msg cid s).2).1
    = ok (history_json cid (default [] (conversation_store s !! cid))).
Proof.
  intros Hl Hmsg Hcid Hbot.
  rewrite <- (resolved_history_supplied env cid _ Hcid) in Hbot.
  assert (conversation_store (chat env msg cid s).2 !! cid
          = Some (default [] (conversation_store s !! cid))) as Hstore.
  { rewrite chat_spec, Hl. case_decide; [done|].
    rewrite dialog_turn_spec. cbv zeta. rewrite Hbot. simpl.
    unfold resolved_store. case_decide; [done|].
    destruct (conversation_store s !! cid) as [h|] eqn:Hh; [done|].
    by rewrite lookup_insert_eq. }
  split_and!; [|done|].
  - rewrite chat_spec, Hl. case_decide; [done|].
    rewrite dialog_turn_spec. cbv zeta. by rewrite Hbot.
  - unfold get_conversation_history, api_response, get_conversation_history_view.
    by rewrite Hstore.
Qed.

Lemma failed_dialog_appends_nothing_witness :
  (get_conversation_history "abc"
     (chat (Sample.with_chatbot (λ _, Raised "CUDA out of memory") Sample.env)
        "hi" "abc" Sample.ready).2).1
    = ok (history_json "abc" []).
Proof.
  apply (failed_dialog_appends_nothing
           (Sample.with_chatbot (λ _, Raised "CUDA out of memory") Sample.env)
           "hi" "abc" "CUDA out of memory" Sample.ready);
    first [reflexivity|discriminate].
Defined.

(** ** The stages of the round trip *)



(** X7. When the synthesis stage of the round trip fails (the pipeline
    raises, or returns no audio row) after transcription and dialog
    succeeded, the caller gets 500 with the exception text, but the dialog
    turn is not undone: the user turn and the assistant turn are in the
    session.  No artifact is recorded. *)
Theorem failed_synthesis_keeps_turn (env : Env) (data : list byte) (msg cid e : string)
    (generated : list string) (s : State) :
  models_loaded s = true →
  asr env data = Returned msg →
  unlink_error env (temp_name env) = None →
  chatbot env {| new_user_input := msg;
                 calls := replay (resolved_history env cid (conversation_store s)) |}
    = Returned generated →
  narrator env (newest_response generated) = Raised e ∨
  (∃ rate, narrator env (newest_response generated)
             = Returned {| sampling_rate := rate; audio := [] |} ∧
           e = "index 0 is out of bounds for axis 0 with size 0") →
  let id := if decide (cid = "") then uuid_conversation env else cid in
  (conversation_with_audio env (Some data) cid s).1 = failed 500 e ∧
  conversation_store (conversation_with_audio env (Some data) cid s).2 !! id
    = Some (resolved_history env cid (conversation_store s)
            ++ [user_turn msg; assistant_turn (newest_response generated)]) ∧
  audio_file_store (conversation_with_audio env (Some data) cid s).2 = audio_file_store s.
Proof.
  intros Hl Hasr Hunlink Hbot Htts. cbv zeta.
  change (if decide (cid = "") then uuid_conversation env else cid)
    with (resolved_id env cid).
  assert (∃ s', conversation_with_audio env (Some data) cid s = (failed 500 e, s') ∧
            conversation_store s' !! resolved_id env cid
              = Some (resolved_history env cid (conversation_store s)
                      ++ [user_turn msg; assistant_turn (newest_response generated)]) ∧
            audio_file_store s' = audio_file_store s) as (s' & -> & Hstore & Haudio).
  { rewrite conversation_with_audio_unfold by done. cbv zeta.
    rewrite transcribe_spec. cbv zeta. rewrite Hasr, Hunlink.
    rewrite dialog_turn_spec. cbv zeta. simpl conversation_store. rewrite Hbot.
    rewrite synthesize_spec. cbv zeta. simpl.
    destruct Htts as [->|(rate & -> & ->)]; simpl;
      (eexists; split; [reflexivity|]; simpl; split;
         [by rewrite lookup_insert_eq|done]). }
  done.
Qed.

Lemma failed_synthesis_keeps_turn_witness :
  (conversation_with_audio
     {| uuid_conversation := "u"; uuid_audio := "a"; temp_name := "/tmp/chatbot_audio/t.wav";
        clock := 5; chatbot := λ _, Returned ["hello"]; asr := λ _, Returned "hi";
        narrator := λ _, Raised "vocoder failed"; unlink_error := λ _, None |}
     (Some Sample.riff) "abc" Sample.ready).1 = failed 500 "vocoder failed" ∧
  conversation_store
    (conversation_with_audio
       {| uuid_conversation := "u"; uuid_audio := "a"; temp_name := "/tmp/chatbot_audio/t.wav";
          clock := 5; chatbot := λ _, Returned ["hello"]; asr := λ _, Returned "hi";
          narrator := λ _, Raised "vocoder failed"; unlink_error := λ _, None |}
       (Some Sample.riff) "abc" Sample.ready).2 !! "abc"
    = Some [user_turn "hi"; assistant_turn "hello"].
Proof.
  destruct (failed_synthesis_keeps_turn
              {| uuid_conversation := "u"; uuid_audio := "a";
                 temp_name := "/tmp/chatbot_audio/t.wav";
                 clock := 5; chatbot := λ _, Returned ["hello"]; asr := λ _, Returned "hi";
                 narrator := λ _, Raised "vocoder failed"; unlink_error := λ _, None |}
              Sample.riff "hi" "abc" "vocoder failed" ["hello"] Sample.ready)
    as (Hreply & Hstore & _); [reflexivity..|by left|].
  split; [exact Hreply|exact Hstore].
Defined.

(** ** What the dialog engine is given *)

Lemma replay_app h1 h2 : replay (h1 ++ h2) = replay h1 ++ replay h2.
Proof. unfold replay. apply flat_map_app. Qed.

(** X8. A valid [chat] request invokes the dialog pipeline exactly once
    and no other pipeline, whether the call succeeds or raises.  The
    conversation it passes carries the new message and replays the whole
    stored history of the session in order; each stored exchange is
    replayed as add_user_input, mark_processed, append_response. *)
Theorem chat_replays_history (env : Env) (msg cid : string) (s : State) :
  models_loaded s = true →
  msg ≠ "" →
  cid ≠ "" →
  engine_calls (chat env msg cid s).2 =
    engine_calls s ++
    [call_chatbot {| new_user_input := msg;
                     calls := replay (default [] (conversation_store s !! cid)) |}] ∧
  ∀ h text reply,
    replay (h ++ [user_turn text; assistant_turn reply]) =
    replay h ++ [add_user_input text; mark_processed; append_response reply].
Proof.
  intros Hl Hmsg Hcid. split.
  - rewrite chat_spec, Hl. case_decide; [done|].
    rewrite dialog_turn_spec. cbv zeta.
    rewrite resolved_history_supplied by done.
    by destruct (chatbot env _).
  - intros h text reply. by rewrite replay_app.
Qed.

Lemma chat_replays_history_witness :
  engine_calls
    (chat Sample.env "again" "abc" (chat Sample.env "hi" "abc" Sample.ready).2).2
  = [call_chatbot {| new_user_input := "hi"; calls := [] |};
     call_chatbot {| new_user_input := "again";
                     calls := [add_user_input "hi"; mark_processed;
                               append_response "hello"] |}].
Proof.
  rewrite (proj1 (chat_replays_history Sample.env "again" "abc"
                    (chat Sample.env "hi" "abc" Sample.ready).2
                    eq_refl ltac:(discriminate) ltac:(discriminate))).
  vm_compute. reflexivity.
Defined.

(** X9. The reply of [chat] is the last of the generated responses that
    the dialog pipeline returns, also when that response is the empty
    string: the canned fallback is used only when there is none at all. *)
Theorem chat_reply_is_last_generated (env : Env) (msg cid newest : string)
    (earlier : list string) (s : State) :
  models_loaded s = true →
  msg ≠ "" →
  chatbot env {| new_user_input := msg;
                 calls := replay (resolved_history env cid (conversation_store s)) |}
    = Returned (earlier ++ [newest]) →
  reply_of (chat env msg cid s).1 = newest ∧ status_code (chat env msg cid s).1 = 200.
Proof.
  intros Hl Hmsg Hbot. rewrite chat_spec, Hl. case_decide; [done|].
  rewrite dialog_turn_spec. cbv zeta. rewrite Hbot. simpl. split; [|done].
  unfold newest_response. destruct (earlier ++ [newest]) eqn:Heq.
  - by destruct earlier.
  - rewrite <- Heq. apply last_last.
Qed.

Lemma chat_reply_is_last_generated_witness :
  reply_of (chat (Sample.with_chatbot (λ _, Returned ["hello"; ""]) Sample.env)
              "hi" "abc" Sample.ready).1 = "".
Proof.
  apply (chat_reply_is_last_generated
           (Sample.with_chatbot (λ _, Returned ["hello"; ""]) Sample.env)
           "hi" "abc" "" ["hello"] Sample.ready); first [reflexivity|discriminate].
Defined.

(** ** Continuing under a minted identifier *)

(** X10. A [chat] request without identifier is answered with the drawn
    uuid; when the client sends its next message under that identifier,
    the turn lands in the same session: a read afterwards shows the four
    turns of both exchanges in order, and the engine was shown the first
    exchange on the second call. *)
Theorem minted_id_continues (env1 env2 : Env) (msg1 msg2 : string)
    (g1 g2 : list string) (s : State) :
  models_loaded s = true →
  msg1 ≠ "" → msg2 ≠ "" →
  uuid_conversation env1 ≠ "" →
  chatbot env1 {| new_user_input := msg1; calls := [] |} = Returned g1 →
  chatbot env2 {| new_user_input := msg2;
                  calls := [add_user_input msg1; mark_processed;
                            append_response (newest_response g1)] |} = Returned g2 →
  let id := uuid_conversation env1 in
  let first := chat env1 msg1 "" s in
  let second := chat env2 msg2 id first.2 in
  first.1 = ok (chat_json (newest_response g1) id) ∧
  second.1 = ok (chat_json (newest_response g2) id) ∧
  (get_conversation_history id second.2).1 =
    ok (history_json id
          [user_turn msg1; assistant_turn (newest_response g1);
           user_turn msg2; assistant_turn (newest_response g2)]).
Proof.
  intros Hl Hmsg1 Hmsg2 Hid Hbot1 Hbot2. cbv zeta.
  assert (chat env1 msg1 "" s =
            (ok (chat_json (newest_response g1) (uuid_conversation env1)),
             with_conversation_store
               (<[uuid_conversation env1 :=
                    [user_turn msg1; assistant_turn (newest_response g1)]]>
                  (<[uuid_conversation env1 := []]> (conversation_store s)))
               (with_engine_calls
                  (engine_calls s ++ [call_chatbot {| new_user_input := msg1; calls := [] |}])
                  (with_conversation_store
                     (<[uuid_conversation env1 := []]> (conversation_store s)) s))))
    as Hfirst.
  { rewrite chat_spec, Hl. case_decide; [done|].
    rewrite dialog_turn_spec. cbv zeta.
    rewrite (resolved_history_unknown env1 "" _ (or_introl eq_refl)).
    simpl replay. by rewrite Hbot1. }
  rewrite Hfirst. simpl.
  set (s1 := with_conversation_store _ _).
  assert (conversation_store s1 !! uuid_conversation env1
          = Some [user_turn msg1; assistant_turn (newest_response g1)]) as Hs1
    by apply lookup_insert_eq.
  assert (chat env2 msg2 (uuid_conversation env1) s1 =
            (ok (chat_json (newest_response g2) (uuid_conversation env1)),
             with_conversation_store
               (<[uuid_conversation env1 :=
                    [user_turn msg1; assistant_turn (newest_response g1)]
                    ++ [user_turn msg2; assistant_turn (newest_response g2)]]>
                  (conversation_store s1))
               (with_engine_calls
                  (engine_calls s1 ++
                   [call_chatbot
                      {| new_user_input := msg2;
                         calls := [add_user_input msg1; mark_processed;
                                   append_response (newest_response g1)] |}])
                  (with_conversation_store (conversation_store s1) s1))))
    as Hsecond.
  { rewrite chat_spec. change (models_loaded s1) with (models_loaded s). rewrite Hl.
    case_decide; [done|].
    rewrite dialog_turn_spec. cbv zeta.
    rewrite resolved_id_supplied, resolved_history_supplied by done.
    rewrite Hs1. simpl default. simpl replay. rewrite Hbot2.
    unfold resolved_store. case_decide; [done|]. by rewrite Hs1. }
  rewrite Hsecond. split_and!; [done..|].
  unfold get_conversation_history, api_response, get_conversation_history_view. simpl.
  by rewrite lookup_insert_eq.
Qed.

Lemma minted_id_continues_witness :
  (get_conversation_history "0b5c0f4e-7c1d-4a9e-9d55-3f1f3a6f2c10"
     (chat Sample.env "again" "0b5c0f4e-7c1d-4a9e-9d55-3f1f3a6f2c10"
        (chat Sample.env "hi" "" Sample.ready).2).2).1
  = ok (history_json "0b5c0f4e-7c1d-4a9e-9d55-3f1f3a6f2c10"
          [user_turn "hi"; assistant_turn "hello";
           user_turn "again"; assistant_turn "hello"]).
Proof.
  apply (minted_id_continues Sample.env Sample.env "hi" "again" ["hello"] ["hello"]
           Sample.ready); first [reflexivity|discriminate].
Defined.

(** ** The readiness flag over a run *)

Lemma cleanup_cycle_keeps {B} (proj : State → B) env :
  (∀ l s, proj (with_log l s) = proj s) →
  (∀ f s, proj (with_files f s) = proj s) →
  (∀ d s, proj (with_audio_file_store d s) = proj s) →
  keeps proj (cleanup_cycle env).
Proof.
  intros Hlog Hfiles Haudio.
  unfold cleanup_cycle. apply keeps_try_except.
  - apply keeps_bind; [apply keeps_read|]. intros snapshot.
    apply keeps_for_each. intros item. unfold cleanup_entry.
    destruct (expired _ _); [|apply keeps_ret].
    apply keeps_try_except.
    + apply keeps_bind; [apply keeps_read|]. intros there. apply keeps_bind.
      * destruct there; [|apply keeps_ret].
        intros s. unfold os_unlink.
        destruct (files s !! _); [|done]. destruct (unlink_error env _); [done|].
        apply Hfiles.
      * intros _. apply keeps_bind.
        -- intros s. unfold del_audio. destruct (PyDict.get _ _); [|done]. apply Haudio.
        -- intros _. apply keeps_update. intros s. apply Hlog.
    + intros e. apply keeps_update. intros s. apply Hlog.
  - intros e. apply keeps_update. intros s. apply Hlog.
Qed.

Lemma dialog_turn_keeps_flag env msg cid : keeps models_loaded (dialog_turn env msg cid).
Proof. intros s. rewrite dialog_turn_spec. cbv zeta. by destruct (chatbot env _). Qed.

Lemma transcribe_keeps_flag env data : keeps models_loaded (transcribe env data).
Proof.
  intros s. rewrite transcribe_spec. cbv zeta.
  destruct (asr env data); [|done]. by destruct (unlink_error env _).
Qed.

Lemma synthesize_keeps_flag env text : keeps models_loaded (synthesize env text).
Proof.
  intros s. rewrite synthesize_spec. cbv zeta.
  destruct (narrator env text) as [result|]; [|done]. by destruct (audio result).
Qed.

Lemma api_response_keeps_flag name (func : M Response) s :
  keeps models_loaded func → models_loaded (api_response name func s).2 = models_loaded s.
Proof.
  intros Hf. unfold api_response. specialize (Hf s).
  by destruct (func s) as [[r|e] s'].
Qed.

Lemma ensure_models_loaded_keeps_flag (f : Handler) s :
  models_loaded (f s).2 = models_loaded s →
  models_loaded (ensure_models_loaded f s).2 = models_loaded s.
Proof. unfold ensure_models_loaded. by destruct (models_loaded s) eqn:Hl. Qed.

Lemma dispatch_keeps_flag env req s :
  models_loaded (dispatch env req s).2 = models_loaded s.
Proof.
  destruct req as [|msg cid|file|text|file cid|filename|text|cid|cid]; simpl;
    [done|..];
    unfold chat, speech_to_text, text_to_speech, conversation_with_audio,
      language_feedback, get_audio, get_conversation_history, delete_conversation;
    try apply ensure_models_loaded_keeps_flag;
    apply api_response_keeps_flag.
  - unfold chat_view. case_decide; [done|].
    apply keeps_bind; [apply dialog_turn_keeps_flag|done].
  - destruct file; [|done]. apply keeps_bind; [apply transcribe_keeps_flag|done].
  - unfold text_to_speech_view. case_decide; [done|].
    apply keeps_bind; [apply synthesize_keeps_flag|done].
  - destruct file; [|done]. simpl.
    apply keeps_bind; [apply transcribe_keeps_flag|]. intros user_message.
    apply keeps_bind; [apply dialog_turn_keeps_flag|]. intros r.
    apply keeps_bind; [apply synthesize_keeps_flag|done].
  - intros s'. unfold get_audio_view.
    destruct (PyDict.get _ _); [|done]. by destruct (files s' !! _).
  - unfold language_feedback_view. by case_decide.
  - intros s'. unfold get_conversation_history_view.
    by destruct (conversation_store s' !! cid).
  - intros s'. unfold delete_conversation_view. run_monad. by destruct (bool_decide _).
Qed.

(** X11. The readiness flag is written once: after the loader thread has
    set it, no request, no reaper cycle, no later (failed) loader run and
    no outside event clears it again. *)
Theorem readiness_is_never_reset (evs : list Event) (s : State) :
  models_loaded s = true → models_loaded (run evs s) = true.
Proof.
  revert s. induction evs as [|ev evs IH]; intros s Hl; [done|].
  simpl. apply IH. destruct ev as [env req|failure|env|p]; simpl.
  - by rewrite dispatch_keeps_flag.
  - by destruct failure.
  - by rewrite (cleanup_cycle_keeps models_loaded).
  - done.
Qed.

Lemma readiness_is_never_reset_witness :
  models_loaded
    (run [served Sample.deaf (POST_speech_to_text (Some Sample.riff));
          loaded (Some "disk full"); reaped Sample.refusing] Sample.ready) = true.
Proof. apply readiness_is_never_reset. reflexivity. Defined.

Lemma gated_not_ready env req s :
  models_loaded s = false → gated req = true → dispatch env req s = (NOT_READY, s).
Proof.
  intros Hl Hg.
  destruct req; simpl in *; try discriminate;
    unfold chat, speech_to_text, text_to_speech, conversation_with_audio,
      language_feedback, ensure_models_loaded; by rewrite Hl.
Qed.

Lemma cleanup_cycle_empty env s :
  audio_file_store s = [] → cleanup_cycle env s = (Returned (), s).
Proof. intros Hs. unfold cleanup_cycle. run_monad. by rewrite Hs. Qed.

(** X12. Nothing happens before the models are loaded: in every state the
    process can reach from start-up in which the readiness flag is still
    unset, the session store and the artifact store are empty and no
    pipeline has ever been invoked. *)
Theorem nothing_before_ready (evs : list Event) :
  models_loaded (run evs initial_state) = false →
  conversation_store (run evs initial_state) = ∅ ∧
  audio_file_store (run evs initial_state) = [] ∧
  engine_calls (run evs initial_state) = [].
Proof.
  assert (∀ s,
    (models_loaded s = false →
       conversation_store s = ∅ ∧ audio_file_store s = [] ∧ engine_calls s = []) →
    models_loaded (run evs s) = false →
    conversation_store (run evs s) = ∅ ∧ audio_file_store (run evs s) = [] ∧
    engine_calls (run evs s) = []) as Hrun.
  { induction evs as [|ev evs IH]; intros s Hs Hl; [by apply Hs|].
    simpl in *. apply IH; [|done]. clear IH Hl. intros Hl.
    destruct ev as [env req|failure|env|p]; simpl in *.
    - rewrite dispatch_keeps_flag in Hl. destruct (Hs Hl) as (Hc & Ha & He).
      destruct (gated req) eqn:Hg; [by rewrite gated_not_ready|].
      destruct req as [|msg cid|file|text|file cid|filename|text|cid|cid];
        try discriminate; simpl.
      + done.
      + by rewrite get_audio_spec.
      + unfold get_conversation_history, api_response, get_conversation_history_view.
        by destruct (conversation_store s !! cid).
      + unfold delete_conversation, api_response, delete_conversation_view. run_monad.
        rewrite Hc, lookup_empty. simpl. by rewrite Hc.
    - destruct failure; [|done]. simpl in Hl. by apply Hs.
    - rewrite (cleanup_cycle_keeps models_loaded) in Hl by done.
      destruct (Hs Hl) as (Hc & Ha & He). by rewrite cleanup_cycle_empty.
    - by apply Hs. }
  apply Hrun. done.
Qed.

Lemma nothing_before_ready_witness :
  engine_calls
    (run [served Sample.env (POST_chat "hi" "abc"); loaded (Some "disk full");
          served Sample.env (POST_text_to_speech "hi"); reaped Sample.refusing]
       initial_state) = [].
Proof.
  apply (nothing_before_ready
           [served Sample.env (POST_chat "hi" "abc"); loaded (Some "disk full");
            served Sample.env (POST_text_to_speech "hi"); reaped Sample.refusing]).
  vm_compute. reflexivity.
Defined.

(** ** Histories only grow *)

Lemma dialog_turn_grows env msg c cid h s :
  (c = "" → uuid_conversation env ≠ cid) →
  conversation_store s !! cid = Some h →
  ∃ later, conversation_store (dialog_turn env msg c s).2 !! cid = Some (h ++ later).
Proof.
  intros Hspare Hh.
  destruct (decide (cid = resolved_id env c)) as [Heq|Hne].
  - assert (c = cid) as ->.
    { unfold resolved_id in Heq. case_decide; [by destruct Hspare|done]. }
    assert (cid ≠ "") as Hcid.
    { intros ->. unfold resolved_id in Heq. rewrite decide_True in Heq by done.
      by destruct Hspare. }
    rewrite dialog_turn_spec. cbv zeta.
    rewrite resolved_id_supplied, resolved_history_supplied by done. rewrite Hh. simpl.
    assert (resolved_store env cid (conversation_store s) = conversation_store s) as ->.
    { unfold resolved_store. case_decide; [done|]. by rewrite Hh. }
    destruct (chatbot env _); simpl.
    + eexists. by rewrite lookup_insert_eq.
    + exists []. by rewrite app_nil_r.
  - exists []. rewrite app_nil_r, dialog_turn_other_sessions; done.
Qed.

Lemma step_grows cid ev h s :
  spares cid ev →
  conversation_store s !! cid = Some h →
  ∃ later, conversation_store (step ev s) !! cid = Some (h ++ later).
Proof.
  intros Hspare Hh.
  assert (∀ s', conversation_store s' = conversation_store s →
            ∃ later, conversation_store s' !! cid = Some (h ++ later)) as Hsame.
  { intros s' ->. exists []. by rewrite app_nil_r. }
  destruct ev as [env req|failure|env|p]; simpl.
  - destruct req as [|msg c|file|text|file c|filename|text|c|c]; simpl in *.
    + by apply Hsame.
    + rewrite chat_spec. destruct (models_loaded s); [|by apply Hsame].
      case_decide; [by apply Hsame|].
      destruct (dialog_turn_grows env msg c cid h s Hspare Hh) as [later Hlater].
      exists later. by destruct (dialog_turn env msg c s) as [[r|e] s'].
    + apply Hsame. unfold speech_to_text, ensure_models_loaded, api_response.
      destruct (models_loaded s); [|done]. destruct file as [data|]; [|done]. simpl.
      unfold mbind, M_bind.
      pose proof (transcribe_keeps_conversations env data s) as Ht.
      by destruct (transcribe env data s) as [[t|e] s'].
    + apply Hsame. unfold text_to_speech, ensure_models_loaded, api_response,
        text_to_speech_view.
      destruct (models_loaded s); [|done]. case_decide; [done|].
      unfold mbind, M_bind.
      pose proof (synthesize_keeps_conversations env text s) as Hs.
      by destruct (synthesize env text s) as [[t|e] s'].
    + destruct (models_loaded s) eqn:Hl;
        [|apply Hsame; by unfold conversation_with_audio, ensure_models_loaded; rewrite Hl].
      destruct file as [data|];
        [|apply Hsame;
          by unfold conversation_with_audio, ensure_models_loaded, api_response; rewrite Hl].
      rewrite conversation_with_audio_unfold by done. cbv zeta.
      pose proof (transcribe_keeps_conversations env data s) as Ht.
      destruct (transcribe env data s) as [[user_message|e] s1]; simpl in Ht;
        [|by apply Hsame].
      rewrite <- Ht in Hh.
      destruct (dialog_turn_grows env user_message c cid h s1 Hspare Hh) as [later Hlater].
      exists later.
      destruct (dialog_turn env user_message c s1) as [[r|e] s2]; simpl in Hlater; [|done].
      pose proof (synthesize_keeps_conversations env r.1 s2) as Hs.
      destruct (synthesize env r.1 s2) as [[filename|e] s3]; simpl in *; by rewrite Hs.
    + apply Hsame. by rewrite get_audio_spec.
    + apply Hsame. unfold language_feedback, ensure_models_loaded, api_response,
        language_feedback_view.
      destruct (models_loaded s); [|done]. by case_decide.
    + apply Hsame. unfold get_conversation_history, api_response,
        get_conversation_history_view.
      by destruct (conversation_store s !! c).
    + exists []. rewrite app_nil_r.
      unfold delete_conversation, api_response, delete_conversation_view. run_monad.
      destruct (bool_decide _); simpl; [|done]. by rewrite lookup_delete_ne.
  - apply Hsame. by destruct failure.
  - apply Hsame. apply cleanup_cycle_keeps_conversations.
  - by apply Hsame.
Qed.

(** X13. Histories only grow: as long as a session is not deleted (and no
    request without identifier happens to draw its id as a new uuid), the
    history it had is a prefix of the history it has later, whatever else
    is served in between.  Turns once appended are never changed,
    reordered or dropped; there is no idle eviction. *)
Theorem history_only_grows (cid : string) (evs : list Event) (h : list Turn) (s : State) :
  Forall (spares cid) evs →
  conversation_store s !! cid = Some h →
  ∃ later, conversation_store (run evs s) !! cid = Some (h ++ later).
Proof.
  revert h s. induction evs as [|ev evs IH]; intros h s Hspare Hh.
  - exists []. by rewrite app_nil_r.
  - apply Forall_cons in Hspare as [Hev Hspare]. simpl.
    destruct (step_grows cid ev h s Hev Hh) as [later1 H1].
    destruct (IH _ _ Hspare H1) as [later2 H2].
    exists (later1 ++ later2). by rewrite app_assoc.
Qed.

Lemma history_only_grows_witness :
  ∃ later,
    conversation_store
      (run [served Sample.env (POST_chat "bye" "xyz");
            served Sample.deaf (POST_conversation_with_audio (Some Sample.riff) "abc");
            served Sample.silent (POST_chat "again" "abc");
            served Sample.env (DELETE_conversation "xyz")]
         (chat Sample.env "hi" "abc" Sample.ready).2) !! "abc"
    = Some ([user_turn "hi"; assistant_turn "hello"] ++ later).
Proof.
  apply history_only_grows.
  - repeat constructor; simpl; discriminate.
  - vm_compute. reflexivity.
Defined.

(** ** Artifacts *)

Lemma text_to_speech_unfold env text s :
  models_loaded s = true →
  text ≠ "" →
  text_to_speech env text s =
  match synthesize env text s with
  | (Returned filename, s') => (ok (audio_url_json ("/api/audio/" +:+ filename)), s')
  | (Raised e, s') =>
      (failed 500 e,
       with_log (log s' ++ [log_error ("Error in text_to_speech: " +:+ e)]) s')
  end.
Proof.
  intros Hl Htext. unfold text_to_speech, ensure_models_loaded, api_response,
    text_to_speech_view. rewrite Hl. case_decide; [done|].
  unfold mbind, M_bind, mret, M_ret.
  by destruct (synthesize env text s) as [[filename|e] s'].
Qed.



Lemma string_length_app (a b : string) :
  String.length (a +:+ b) = String.length a + String.length b.
Proof. induction a as [|c a IH]; simpl; [done|]. by rewrite IH. Qed.

Lemma string_app_inj_r (a b c : string) : a +:+ c = b +:+ c → a = b.
Proof.
  revert b. induction a as [|x a IH]; intros [|y b] Heq; simpl in *.
  - done.
  - pose proof (f_equal String.length Heq) as Hlen.
    rewrite !string_length_app in Hlen. simpl in Hlen. lia.
  - pose proof (f_equal String.length Heq) as Hlen.
    rewrite !string_length_app in Hlen. simpl in Hlen. lia.
  - cbn in Heq. injection Heq as -> Heq. f_equal. by apply IH.
Qed.

(** X15. Artifacts do not disturb each other: after a second
    [text_to_speech] whose uuid differs from the first one's, however the
    second ends, the first artifact is still served with the sample rate
    and samples it was stored with. *)
Theorem later_synthesis_keeps_artifact (env1 env2 : Env) (text1 text2 : string)
    (s : State) (speech : Speech) (row : list Q) (rows : list (list Q)) :
  models_loaded s = true →
  text1 ≠ "" →
  narrator env1 text1 = Returned speech →
  audio speech = row :: rows →
  uuid_audio env1 ≠ uuid_audio env2 →
  let filename := uuid_audio env1 +:+ ".wav" in
  (get_audio filename
     (text_to_speech env2 text2 (text_to_speech env1 text1 s).2).2).1
    = ok (send_file (wav_file (sampling_rate speech) row) "audio/wav" filename).
Proof.
  intros Hl Htext1 Htts Haudio Huuid. cbv zeta.
  rewrite (text_to_speech_success env1 text1 s speech row rows) by done. cbv zeta.
  set (f1 := uuid_audio env1 +:+ ".wav").
  set (info := {| path := temp_path f1; timestamp := clock env1; type := "audio/wav" |}).
  simpl. set (s1 := with_audio_file_store _ _).
  assert (PyDict.get f1 (audio_file_store s1) = Some info) as Hget by apply get_set_eq.
  assert (files s1 !! temp_path f1 = Some (wav_file (sampling_rate speech) row)) as Hfile
    by apply lookup_insert_eq.
  assert (uuid_audio env2 +:+ ".wav" ≠ f1) as Hne.
  { intros Heq. apply string_app_inj_r in Heq. by apply Huuid. }
  assert (PyDict.get f1 (audio_file_store (text_to_speech env2 text2 s1).2) = Some info ∧
          files (text_to_speech env2 text2 s1).2 !! temp_path f1
            = Some (wav_file (sampling_rate speech) row)) as [Hget2 Hfile2].
  { destruct (decide (text2 = "")) as [->|Htext2].
    { unfold text_to_speech, ensure_models_loaded, api_response. simpl. by rewrite Hl. }
    rewrite text_to_speech_unfold, synthesize_spec by done. cbv zeta.
    destruct (narrator env2 text2) as [result|e]; [|done].
    destruct (audio result) as [|row2 rows2]; [done|]. simpl.
    rewrite get_set_ne by done. rewrite lookup_insert_ne; [done|].
    intros Heq. by apply temp_path_inj in Heq. }
  rewrite get_audio_spec, Hget2. change (path info) with (temp_path f1).
  by rewrite Hfile2.
Qed.

Lemma later_synthesis_keeps_artifact_witness :
  (get_audio "6f1e2d3c.wav" Sample.two_artifacts).1
    = ok (send_file (wav_file 16000 [1 # 2; -1 # 4]) "audio/wav" "6f1e2d3c.wav").
Proof.
  apply (later_synthesis_keeps_artifact Sample.env
           (Sample.with_uuid_audio "9a8b7c6d" Sample.env) "one" "two" Sample.ready
           {| sampling_rate := 16000; audio := [[1 # 2; -1 # 4]] |} [1 # 2; -1 # 4] []);
    first [reflexivity|discriminate].
Defined.

(** ** The reaper *)

Lemma for_each_unexpired env items : ∀ s,
  (∀ k info, (k, info) ∈ items → expired (clock env) info = false) →
  for_each (cleanup_entry env (clock env)) items s = (Returned (), s).
Proof.
  induction items as [|[k info] items IH]; intros s Hitems; [done|].
  simpl. unfold mbind, M_bind, cleanup_entry. simpl.
  rewrite (Hitems k info) by (apply elem_of_cons; by left).
  simpl. apply IH. intros k' info' Hin. apply (Hitems k' info'), elem_of_cons. by right.
Qed.

(** X16. A reaper cycle in which no entry is older than the retention
    window does nothing at all: no entry, no file and no log record
    changes. *)
Theorem young_store_is_left_alone (env : Env) (s : State) :
  (∀ filename info, (filename, info) ∈ audio_file_store s →
     (clock env - timestamp info <= Config.AUDIO_RETENTION_SECONDS)%Q) →
  cleanup_cycle env s = (Returned (), s).
Proof.
  intros Hyoung. unfold cleanup_cycle. run_monad.
  rewrite for_each_unexpired; [done|].
  intros k info Hin. apply not_true_is_false. rewrite expired_spec.
  apply Qle_not_lt. by eapply Hyoung.
Qed.

Lemma young_store_is_left_alone_witness :
  cleanup_cycle (Sample.at_time 4600 Sample.env) Sample.two_artifacts
    = (Returned (), Sample.two_artifacts).
Proof.
  apply young_store_is_left_alone. intros filename info Hin.
  vm_compute in Hin.
  apply elem_of_cons in Hin as [[= -> ->]|Hin]; [vm_compute; discriminate|].
  apply elem_of_cons in Hin as [[= -> ->]|Hin]; [vm_compute; discriminate|].
  by apply elem_of_nil in Hin.
Defined.

Lemma cleanup_cycle_settled env s filename info :
  audio_wf s →
  path info = temp_path filename →
  PyDict.get filename (audio_file_store s) = None →
  files s !! path info = None →
  PyDict.get filename (audio_file_store (cleanup_cycle env s).2) = None ∧
  files (cleanup_cycle env s).2 !! path info = None.
Proof.
  intros Hwf Hpath Hget Hfile. split; [by apply cleanup_cycle_absent|].
  rewrite cleanup_cycle_for_each by done. simpl.
  destruct (for_each_cleanup_frame env _ _ (wf_snapshot_of s Hwf)) as [_ Hframe].
  rewrite Hframe; [done|].
  intros k Hk Heq. rewrite Hpath in Heq. apply temp_path_inj in Heq. subst k.
  by apply get_None_keys in Hget.
Qed.

Lemma cleanup_old_files_settled cycles : ∀ s filename info,
  audio_wf s →
  path info = temp_path filename →
  PyDict.get filename (audio_file_store s) = None →
  files s !! path info = None →
  PyDict.get filename (audio_file_store (cleanup_old_files cycles s)) = None ∧
  files (cleanup_old_files cycles s) !! path info = None.
Proof.
  induction cycles as [|env cycles IH]; intros s filename info Hwf Hpath Hget Hfile;
    [done|].
  simpl. destruct (cleanup_cycle_settled env s filename info) as [Hget' Hfile']; try done.
  apply IH; try done. by apply cleanup_cycle_preserves_wf.
Qed.

(** X17. The reaper retries: an entry whose removal was refused (or that
    was not yet old enough) in earlier cycles is removed, entry and file,
    by the first later cycle in which it is older than the retention
    window and [os.unlink] does not refuse; and once removed it stays
    removed in all cycles after that. *)
Theorem reaper_removes_eventually (earlier later : list Env) (env : Env) (s : State)
    (filename : string) (info : AudioInfo) :
  audio_store_wf (audio_file_store s) →
  PyDict.get filename (audio_file_store s) = Some info →
  (Config.AUDIO_RETENTION_SECONDS < clock env - timestamp info)%Q →
  unlink_error env (path info) = None →
  PyDict.get filename
    (audio_file_store (cleanup_old_files (earlier ++ env :: later) s)) = None ∧
  files (cleanup_old_files (earlier ++ env :: later) s) !! path info = None.
Proof.
  intros Hwf Hget Hold Hunlink.
  assert (path info = temp_path filename) as Hpath.
  { destruct Hwf as [_ Hpaths]. by apply Hpaths, get_Some_elem_of. }
  revert s Hwf Hget. induction earlier as [|env0 earlier IH]; intros s Hwf Hget.
  - simpl. destruct (cleanup_cycle_entry env s filename info Hwf Hget) as [Hs Hf].
    assert (removes env s info = true) as Htake.
    { unfold removes, unlink_refused. rewrite Hunlink.
      rewrite (proj2 (expired_spec _ _)) by done. by rewrite andb_false_r. }
    rewrite Htake in Hs, Hf.
    apply cleanup_old_files_settled; try done. by apply cleanup_cycle_preserves_wf.
  - simpl. destruct (cleanup_cycle_entry env0 s filename info Hwf Hget) as [Hs Hf].
    pose proof (cleanup_cycle_preserves_wf env0 s Hwf) as Hwf'.
    destruct (removes env0 s info).
    + by apply cleanup_old_files_settled.
    + by apply IH.
Qed.

Lemma reaper_removes_eventually_witness :
  PyDict.get "6f1e2d3c.wav"
    (audio_file_store
       (cleanup_old_files [Sample.refusing; Sample.at_time 4901 Sample.env]
          Sample.two_artifacts)) = None.
Proof.
  apply (reaper_removes_eventually [Sample.refusing] [] (Sample.at_time 4901 Sample.env)
           Sample.two_artifacts "6f1e2d3c.wav"
           {| path := temp_path "6f1e2d3c.wav"; timestamp := 1000; type := "audio/wav" |}).
  - apply (reachable_audio_wf
             [loaded None;
              served Sample.env (POST_text_to_speech "one");
              served (Sample.with_uuid_audio "9a8b7c6d" Sample.env)
                (POST_text_to_speech "two")]).
  - vm_compute. reflexivity.
  - vm_compute. reflexivity.
  - reflexivity.
Defined.

(** ** Entries and their files *)

Lemma dialog_turn_keeps_files env msg cid : keeps files (dialog_turn env msg cid).
Proof. intros s. rewrite dialog_turn_spec. cbv zeta. by destruct (chatbot env _). Qed.

Lemma dialog_turn_preserves_backed env msg cid : preserves backed (dialog_turn env msg cid).
Proof.
  intros s Hs k info. rewrite dialog_turn_keeps_audio, dialog_turn_keeps_files. apply Hs.
Qed.

Lemma synthesize_preserves_backed env text : preserves backed (synthesize env text).
Proof.
  intros s Hs k info. rewrite synthesize_spec. cbv zeta.
  destruct (narrator env text) as [result|]; [|apply Hs].
  destruct (audio result) as [|row rows]; [apply Hs|]. simpl.
  destruct (decide (uuid_audio env +:+ ".wav" = k)) as [<-|Hne].
  - rewrite get_set_eq. intros [= <-]. simpl. rewrite lookup_insert_eq. eauto.
  - rewrite get_set_ne by done. intros Hget.
    destruct (Hs k info Hget) as [data Hdata].
    rewrite lookup_insert. case_decide; eauto.
Qed.

Lemma transcribe_preserves_backed env data s :
  files s !! temp_name env = None → backed s → backed (transcribe env data s).2.
Proof.
  intros Hfresh Hs k info. rewrite transcribe_keeps_audio. intros Hget.
  destruct (Hs k info Hget) as [x Hx].
  assert (temp_name env ≠ path info) as Hne by (intros Heq; congruence).
  rewrite transcribe_spec. cbv zeta.
  destruct (asr env data); [destruct (unlink_error env _)|]; simpl;
    rewrite ?lookup_delete_ne, ?lookup_insert_ne by done; eauto.
Qed.

Lemma api_response_preserves_backed name (func : M Response) s :
  backed (func s).2 → backed (api_response name func s).2.
Proof. unfold api_response. by destruct (func s) as [[r|e] s']. Qed.

Lemma cleanup_cycle_preserves_backed env s :
  audio_wf s → backed s → backed (cleanup_cycle env s).2.
Proof.
  intros Hwf Hs k info Hget'.
  destruct (PyDict.get k (audio_file_store s)) as [info0|] eqn:Hget.
  - destruct (cleanup_cycle_entry env s k info0 Hwf Hget) as [Hstore Hfile].
    rewrite Hget' in Hstore. destruct (removes env s info0); [done|].
    injection Hstore as ->. rewrite Hfile. by eapply Hs.
  - by rewrite (cleanup_cycle_absent env s k Hwf Hget) in Hget'.
Qed.

(** X18. Entries keep their files: if every entry of the artifact store
    has its file, this is still so after any request whose transient file
    gets an unused name, after the loader thread, and after a reaper
    cycle.  Only a removal from outside can leave an entry without its
    file (the case [get_audio]'s second 404 is for). *)
Theorem entries_keep_their_files (ev : Event) (s : State) :
  audio_store_wf (audio_file_store s) →
  backed s →
  tidy ev s →
  backed (step ev s).
Proof.
  intros Hwf Hs Htidy. destruct ev as [env req|failure|env|p]; simpl in *.
  - destruct req as [|msg cid|file|text|file cid|filename|text|cid|cid]; simpl;
      unfold chat, speech_to_text, text_to_speech, conversation_with_audio,
        language_feedback, ensure_models_loaded.
    + done.
    + destruct (models_loaded s); [|done]. apply api_response_preserves_backed.
      unfold chat_view. case_decide; [done|].
      by apply preserves_bind; [apply dialog_turn_preserves_backed|intros r; apply preserves_ret|].
    + destruct (models_loaded s); [|done]. apply api_response_preserves_backed.
      destruct file as [data|]; [|done]. simpl. unfold mbind, M_bind.
      pose proof (transcribe_preserves_backed env data s Htidy Hs) as Ht.
      by destruct (transcribe env data s) as [[t|e] s'].
    + destruct (models_loaded s); [|done]. apply api_response_preserves_backed.
      unfold text_to_speech_view. case_decide; [done|].
      by apply preserves_bind; [apply synthesize_preserves_backed|intros r; apply preserves_ret|].
    + destruct (models_loaded s); [|done]. apply api_response_preserves_backed.
      destruct file as [data|]; [|done]. simpl. unfold mbind at 1, M_bind at 1.
      pose proof (transcribe_preserves_backed env data s Htidy Hs) as Ht.
      destruct (transcribe env data s) as [[user_message|e] s1]; [|done]. simpl in Ht.
      apply preserves_bind; [apply dialog_turn_preserves_backed| |done].
      intros r. apply preserves_bind; [apply synthesize_preserves_backed|].
      intros filename. apply preserves_ret.
    + by rewrite get_audio_spec.
    + destruct (models_loaded s); [|done]. apply api_response_preserves_backed.
      unfold language_feedback_view. by case_decide.
    + unfold get_conversation_history, api_response, get_conversation_history_view.
      by destruct (conversation_store s !! cid).
    + unfold delete_conversation, api_response, delete_conversation_view. run_monad.
      by destruct (bool_decide _).
  - by destruct failure.
  - by apply cleanup_cycle_preserves_backed.
  - done.
Qed.

Lemma entries_keep_their_files_witness :
  backed (step (reaped Sample.refusing) Sample.two_artifacts).
Proof.
  apply entries_keep_their_files.
  - apply (reachable_audio_wf
             [loaded None;
              served Sample.env (POST_text_to_speech "one");
              served (Sample.with_uuid_audio "9a8b7c6d" Sample.env)
                (POST_text_to_speech "two")]).
  - intros filename info Hget.
    apply get_Some_elem_of in Hget. vm_compute in Hget.
    apply elem_of_cons in Hget as [[= -> ->]|Hget]; [vm_compute; eauto|].
    apply elem_of_cons in Hget as [[= -> ->]|Hget]; [vm_compute; eauto|].
    by apply elem_of_nil in Hget.
  - exact I.
Defined.

(** ** Errors and the log *)

Lemma dialog_turn_keeps_log env msg cid : keeps log (dialog_turn env msg cid).
Proof. intros s. rewrite dialog_turn_spec. cbv zeta. by destruct (chatbot env _). Qed.

Lemma transcribe_keeps_log env data : keeps log (transcribe env data).
Proof.
  intros s. rewrite transcribe_spec. cbv zeta.
  destruct (asr env data); [|done]. by destruct (unlink_error env _).
Qed.

Lemma synthesize_keeps_log env text : keeps log (synthesize env text).
Proof.
  intros s. rewrite synthesize_spec. cbv zeta.
  destruct (narrator env text) as [result|]; [|done]. by destruct (audio result).
Qed.

Lemma plain_ret r : status_code r ≠ 500 → plain (mret r).
Proof. intros Hr. split; [done|]. by intros s r' s' [= <- <-]. Qed.

Lemma plain_bind {A} (m : M A) (f : A → M Response) :
  keeps log m → (∀ a, plain (f a)) → plain (m ≫= f).
Proof.
  intros Hm Hf. split.
  - apply keeps_bind; [done|]. intros a. apply Hf.
  - intros s r s'. unfold mbind, M_bind.
    destruct (m s) as [[a|e] s1]; [|done]. apply Hf.
Qed.

Lemma api_response_logs name (func : M Response) s :
  plain func →
  log (api_response name func s).2 =
    log s ++
    (if decide (status_code (api_response name func s).1 = 500)
     then [log_error ("Error in " +:+ name +:+ ": " +:+ error_of (api_response name func s).1)]
     else []).
Proof.
  intros [Hlog Hcode]. unfold api_response. specialize (Hlog s). specialize (Hcode s).
  destruct (func s) as [[r|e] s']; simpl in *.
  - rewrite decide_False by by eapply Hcode. by rewrite app_nil_r, Hlog.
  - by rewrite Hlog.
Qed.

(** X19. Every 500 is logged, and nothing else is: a request adds to the
    log exactly one error record, "Error in <view function>: <message>"
    with the message the response carries, when it is answered 500, and
    adds nothing when it is answered anything else. *)
Theorem every_500_is_logged (env : Env) (req : Request) (s : State) :
  log (dispatch env req s).2 =
    log s ++
    (if decide (status_code (dispatch env req s).1 = 500)
     then [log_error ("Error in " +:+ func_name req +:+ ": "
                      +:+ error_of (dispatch env req s).1)]
     else []).
Proof.
  assert (∀ name (func : M Response), plain func →
            log (ensure_models_loaded (api_response name func) s).2 =
            log s ++
            (if decide (status_code (ensure_models_loaded (api_response name func) s).1 = 500)
             then [log_error ("Error in " +:+ name +:+ ": "
                     +:+ error_of (ensure_models_loaded (api_response name func) s).1)]
             else [])) as Hgated.
  { intros name func Hplain. unfold ensure_models_loaded.
    destruct (models_loaded s); [by apply api_response_logs|].
    simpl. by rewrite app_nil_r. }
  destruct req as [|msg cid|file|text|file cid|filename|text|cid|cid]; simpl.
  - by rewrite app_nil_r.
  - apply Hgated. unfold chat_view. case_decide; [by apply plain_ret|].
    apply plain_bind; [apply dialog_turn_keeps_log|]. intros r. by apply plain_ret.
  - apply Hgated. destruct file as [data|]; [|by apply plain_ret].
    apply plain_bind; [apply transcribe_keeps_log|]. intros r. by apply plain_ret.
  - apply Hgated. unfold text_to_speech_view. case_decide; [by apply plain_ret|].
    apply plain_bind; [apply synthesize_keeps_log|]. intros r. by apply plain_ret.
  - apply Hgated. destruct file as [data|]; [|by apply plain_ret]. simpl.
    apply plain_bind; [apply transcribe_keeps_log|]. intros user_message.
    apply plain_bind; [apply dialog_turn_keeps_log|]. intros r.
    apply plain_bind; [apply synthesize_keeps_log|]. intros filename. by apply plain_ret.
  - rewrite get_audio_spec. simpl.
    destruct (PyDict.get _ _) as [info|]; [destruct (files s !! _)|]; simpl;
      by rewrite app_nil_r.
  - apply Hgated. unfold language_feedback_view. case_decide; by apply plain_ret.
  - unfold get_conversation_history, api_response, get_conversation_history_view.
    destruct (conversation_store s !! cid); simpl; by rewrite app_nil_r.
  - unfold delete_conversation, api_response, delete_conversation_view. run_monad.
    destruct (bool_decide _); simpl; by rewrite app_nil_r.
Qed.

(** ** The outcomes of a transcription *)

(** X20. A transcription whose pipeline call succeeds: when [os.unlink]
    removes the transient file, the answer is 200 with the transcript and
    the scratch directory is what it was, minus the transient name; when
    [os.unlink] raises, the transcript is lost: the answer is 500 with
    that error and the transient file stays.  Either way both stores are
    untouched. *)
Theorem transcription_outcomes (env : Env) (data : list byte) (text : string) (s : State) :
  models_loaded s = true →
  asr env data = Returned text →
  match unlink_error env (temp_name env) with
  | None =>
      (speech_to_text env (Some data) s).1 = ok (text_json text) ∧
      files (speech_to_text env (Some data) s).2 = delete (temp_name env) (files s)
  | Some e =>
      (speech_to_text env (Some data) s).1 = failed 500 e ∧
      files (speech_to_text env (Some data) s).2 = <[temp_name env := upload data]> (files s)
  end ∧
  conversation_store (speech_to_text env (Some data) s).2 = conversation_store s ∧
  audio_file_store (speech_to_text env (Some data) s).2 = audio_file_store s.
Proof.
  intros Hl Hasr. rewrite speech_to_text_spec, transcribe_spec by done. cbv zeta.
  rewrite Hasr. destruct (unlink_error env (temp_name env)) as [e|]; simpl.
  - done.
  - by rewrite delete_insert_eq.
Qed.

Lemma transcription_outcomes_witness :
  (speech_to_text Sample.env (Some Sample.riff) Sample.two_artifacts).1
    = ok (text_json "good morning") ∧
  files (speech_to_text Sample.env (Some Sample.riff) Sample.two_artifacts).2
    = delete "/tmp/chatbot_audio/tmpk3v9x2.wav" (files Sample.two_artifacts).
Proof.
  exact (proj1 (transcription_outcomes Sample.env Sample.riff "good morning"
                  Sample.two_artifacts eq_refl eq_refl)).
Defined.

(** * The theorems at work on sample runs *)

Lemma turn_lists_stay_paired_witness :
  paired_store initial_state ∧
  paired_store
    (run [loaded None;
          served Sample.env (POST_chat "hi" "abc");
          served Sample.silent (POST_conversation_with_audio (Some Sample.riff) "abc");
          served Sample.env (DELETE_conversation "xyz")] initial_state).
Proof.
  assert (paired_store initial_state) as Hinit.
  { intros id h Hid. vm_compute in Hid. discriminate Hid. }
  split; [exact Hinit|].
  apply (turn_lists_stay_paired _ initial_state Hinit).
Defined.

Lemma history_after_n_turns_witness :
  ∃ messages,
    (get_conversation_history "abc"
       (chat_session "abc" [(Sample.env, "hi"); (Sample.silent, "again")] Sample.ready).2).1
      = ok (history_json "abc" messages) ∧
    length messages = 4 ∧
    messages = [user_turn "hi"; assistant_turn "hello";
                user_turn "again"; assistant_turn "I'm not sure how to respond to that."].
Proof.
  destruct (history_after_n_turns "abc"
              [(Sample.env, "hi"); (Sample.silent, "again")] Sample.ready)
    as (messages & Hread & Hlen & Hmsgs & _).
  - done.
  - vm_compute. reflexivity.
  - done.
  - repeat constructor; vm_compute; reflexivity.
  - exists messages. split; [exact Hread|]. split; [exact Hlen|].
    rewrite Hmsgs. vm_compute. reflexivity.
Defined.

Lemma fallback_reply_witness :
  (chat Sample.silent "good morning" "abc" Sample.ready).1
    = ok (chat_json "I'm not sure how to respond to that." "abc") ∧
  (conversation_with_audio Sample.silent (Some Sample.riff) "abc" Sample.ready).1
    = ok (conversation_audio_json "good morning" "I'm not sure how to respond to that."
            "abc" "/api/audio/6f1e2d3c.wav").
Proof.
  destruct (fallback_reply Sample.silent "good morning" "abc" Sample.ready)
    as [Hchat Hround].
  - reflexivity.
  - vm_compute. reflexivity.
  - split.
    + apply Hchat. discriminate.
    + apply (Hround Sample.riff {| sampling_rate := 16000; audio := [[1 # 2; -1 # 4]] |}
               [1 # 2; -1 # 4] []); reflexivity.
Defined.

Lemma session_resolution_witness :
  conversation_store Sample.ready !! "abc" = None ∧
  conversation_id_of (chat Sample.env "good morning" "abc" Sample.ready).1 = Some "abc" ∧
  conversation_id_of (chat Sample.env "good morning" "" Sample.ready).1
    = Some "0b5c0f4e-7c1d-4a9e-9d55-3f1f3a6f2c10".
Proof.
  split; [reflexivity|]. split.
  - destruct (session_resolution Sample.env "good morning" "abc" Sample.ready)
      as (_ & Hchat & _).
    + right. reflexivity.
    + reflexivity.
    + apply (Hchat ["hello"]); [discriminate|reflexivity].
  - destruct (session_resolution Sample.env "good morning" "" Sample.ready)
      as (_ & Hchat & _).
    + left. reflexivity.
    + reflexivity.
    + apply (Hchat ["hello"]); [discriminate|reflexivity].
Defined.

Lemma readiness_gate_witness :
  models_loaded initial_state = false ∧
  dispatch Sample.env (POST_chat "hi" "") initial_state = (NOT_READY, initial_state).
Proof.
  split; [reflexivity|].
  exact (readiness_gate Sample.env (POST_chat "hi" "") initial_state eq_refl).
Defined.

Lemma get_audio_not_found_witness :
  (get_audio "6f1e2d3c.wav" Sample.stale).1 = failed 404 "Audio file not found on server" ∧
  (get_audio "6f1e2d3c.wav" Sample.stale).2 = Sample.stale.
Proof.
  destruct (get_audio_not_found "6f1e2d3c.wav" Sample.stale) as (Hcode & Hstate & _).
  - right.
    exists {| path := temp_path "6f1e2d3c.wav"; timestamp := 1000; type := "audio/wav" |}.
    split; vm_compute; reflexivity.
  - split; [exact Hcode|exact Hstate].
Defined.

Lemma failed_transcription_leaves_file_witness :
  (speech_to_text Sample.deaf (Some Sample.riff) Sample.ready).1
    = failed 500 "Soundfile is either not in the correct format or is malformed." ∧
  files (speech_to_text Sample.deaf (Some Sample.riff) Sample.ready).2
    !! "/tmp/chatbot_audio/tmpk3v9x2.wav" = Some (upload Sample.riff).
Proof.
  destruct (failed_transcription_leaves_file Sample.deaf Sample.riff "abc"
              "Soundfile is either not in the correct format or is malformed."
              Sample.ready)
    as (Hreply & Hfile & _).
  - reflexivity.
  - reflexivity.
  - split; [exact Hreply|exact Hfile].
Defined.

Lemma artifact_round_trip_witness :
  (get_audio "6f1e2d3c.wav"
     (cleanup_cycle (Sample.at_time 4600 Sample.env)
        (text_to_speech Sample.env "hi" Sample.ready).2).2).1
    = ok (send_file (wav_file 16000 [1 # 2; -1 # 4]) "audio/wav" "6f1e2d3c.wav") ∧
  (get_audio "6f1e2d3c.wav"
     (cleanup_cycle (Sample.at_time 4601 Sample.env)
        (text_to_speech Sample.env "hi" Sample.ready).2).2).1
    = failed 404 "Audio file not found".
Proof.
  assert (audio_store_wf (audio_file_store Sample.ready)) as Hwf.
  { split; [apply NoDup_nil_2|]. intros k info Hin. vm_compute in Hin.
    by apply elem_of_nil in Hin. }
  split.
  - destruct (artifact_round_trip Sample.env (Sample.at_time 4600 Sample.env) "hi"
                Sample.ready {| sampling_rate := 16000; audio := [[1 # 2; -1 # 4]] |}
                [1 # 2; -1 # 4] [])
      as (_ & _ & Hyoung & _); [reflexivity|discriminate|exact Hwf|reflexivity..|].
    apply Hyoung. vm_compute. discriminate.
  - destruct (artifact_round_trip Sample.env (Sample.at_time 4601 Sample.env) "hi"
                Sample.ready {| sampling_rate := 16000; audio := [[1 # 2; -1 # 4]] |}
                [1 # 2; -1 # 4] [])
      as (_ & _ & _ & Hold); [reflexivity|discriminate|exact Hwf|reflexivity..|].
    apply Hold; [vm_compute; reflexivity|reflexivity].
Defined.

